(** * The raymarching fragment kernel of webGPU-lightning

    A shallow embedding of the WGSL shader held in [src/constants.ts]
    ([BOILERPLATE_SHADER_WGSL]) and the properties its specification
    states about it.

    Numbers.  The shader computes in [f32].  The embedding idealises
    [f32] as the real numbers of the Standard Library: every WGSL
    arithmetic operator and builtin is read as its exact mathematical
    counterpart, comparisons are the order of [R], and rounding,
    infinities and NaN are outside the model.  Division is the total
    division of [R]; where a property is about a denominator being
    non-zero, the denominator is a definition of its own and the
    property is stated on it.

    Loops.  Every loop of the shader has a constant trip count; it is a
    structural recursion on that count, with the [break]s as early
    returns. *)

From Stdlib Require Import Reals Lra Psatz RNsatz.

Open Scope R_scope.

(** ** Vectors *)

Record vec2f : Type := vec2 { x2 : R; y2 : R }.
Record vec3f : Type := vec3 { vx : R; vy : R; vz : R }.
Record vec4f : Type := vec4 { wx : R; wy : R; wz : R; ww : R }.

Definition splat (s : R) : vec3f := vec3 s s s.
Definition xyz (v : vec4f) : vec3f := vec3 (wx v) (wy v) (wz v).
Definition vec4_of (v : vec3f) (w : R) : vec4f := vec4 (vx v) (vy v) (vz v) w.

Definition map3 (f : R -> R) (a : vec3f) : vec3f :=
  vec3 (f (vx a)) (f (vy a)) (f (vz a)).
Definition zip3 (f : R -> R -> R) (a b : vec3f) : vec3f :=
  vec3 (f (vx a) (vx b)) (f (vy a) (vy b)) (f (vz a) (vz b)).

Definition vadd : vec3f -> vec3f -> vec3f := zip3 Rplus.
Definition vsub : vec3f -> vec3f -> vec3f := zip3 Rminus.
Definition vmul : vec3f -> vec3f -> vec3f := zip3 Rmult.
Definition vscale (a : vec3f) (s : R) : vec3f := map3 (fun c => c * s) a.
Definition vdivs (a : vec3f) (s : R) : vec3f := map3 (fun c => c / s) a.
Definition vadds (a : vec3f) (s : R) : vec3f := map3 (fun c => c + s) a.
Definition vsubs (a : vec3f) (s : R) : vec3f := map3 (fun c => c - s) a.
Definition vneg : vec3f -> vec3f := map3 Ropp.

Declare Scope vec_scope.
Delimit Scope vec_scope with vec.
Bind Scope vec_scope with vec3f.
Infix "+v" := vadd (at level 50, left associativity) : vec_scope.
Infix "-v" := vsub (at level 50, left associativity) : vec_scope.
Infix "*v" := vmul (at level 40, left associativity) : vec_scope.
Infix "*s" := vscale (at level 40, left associativity) : vec_scope.
Infix "/s" := vdivs (at level 40, left associativity) : vec_scope.
Infix "+s" := vadds (at level 50, left associativity) : vec_scope.
Infix "-s" := vsubs (at level 50, left associativity) : vec_scope.
Open Scope vec_scope.

(** ** WGSL builtins *)

Definition clamp (e lo hi : R) : R := Rmin (Rmax e lo) hi.
Definition mix (a b t : R) : R := a * (1 - t) + b * t.
Definition wfloor (e : R) : R := IZR (Int_part e).
Definition fract (e : R) : R := e - wfloor e.

Definition smoothstep (lo hi e : R) : R :=
  let t := clamp ((e - lo) / (hi - lo)) 0 1 in
  t * t * (3 - 2 * t).

(** [pow(e1, e2)] on the bases the shader raises to a power, which are
    never negative: [1] for the exponent [0], the real power
    [exp (e2 * ln e1)] for a positive base, and [0] for the base [0]
    with a positive exponent.  A negative base has no real power, and
    the base [0] with a negative exponent has none either (an infinity
    in [f32]); the model returns [0] for both. *)
Definition wpow (e1 e2 : R) : R :=
  if Req_dec_T e2 0 then 1
  else if Rlt_dec 0 e1 then Rpower e1 e2
  else 0.

Definition dot (a b : vec3f) : R :=
  vx a * vx b + vy a * vy b + vz a * vz b.
Definition dot2 (a b : vec2f) : R := x2 a * x2 b + y2 a * y2 b.
Definition cross (a b : vec3f) : vec3f :=
  vec3 (vy a * vz b - vz a * vy b)
       (vz a * vx b - vx a * vz b)
       (vx a * vy b - vy a * vx b).
Definition length (a : vec3f) : R := sqrt (dot a a).
Definition length2 (a : vec2f) : R := sqrt (dot2 a a).
Definition normalize (a : vec3f) : vec3f := a /s length a.
Definition vabs : vec3f -> vec3f := map3 Rabs.
Definition vmax : vec3f -> vec3f -> vec3f := zip3 Rmax.
Definition vfloor : vec3f -> vec3f := map3 wfloor.
Definition vfract : vec3f -> vec3f := map3 fract.
Definition vmix (a b : vec3f) (t : R) : vec3f :=
  zip3 (fun p q => mix p q t) a b.
Definition vmix3 (a b t : vec3f) : vec3f :=
  vec3 (mix (vx a) (vx b) (vx t)) (mix (vy a) (vy b) (vy t))
       (mix (vz a) (vz b) (vz t)).
Definition reflect (e1 e2 : vec3f) : vec3f :=
  e1 -v e2 *s (2 * dot e2 e1).

(** A [mat3x3f] built from nine scalars is filled column by column. *)
Record mat3x3f : Type := mat3 { col0 : vec3f; col1 : vec3f; col2 : vec3f }.
Definition mat_mul_vec (m : mat3x3f) (p : vec3f) : vec3f :=
  col0 m *s vx p +v col1 m *s vy p +v col2 m *s vz p.

(** ** The bindings of the module *)

Record Uniforms : Type := mkUniforms {
  resolution : vec2f;
  time : R;
  dt : R;
  cameraPos : vec4f;
  mouse : vec4f;
  animSpeed : R;
  detail : R;
  vignette : R;
  metallic : R;
  baseColor : vec4f;
  grainStrength : R;
  lightAz : R;
  lightEl : R;
  isRendering : R;
  aberrationStrength : R;
  electricSpeed : R;
  electricIntensity : R;
  electricColor : vec4f;
  audio : vec4f
}.

(** [channel0] is a read-only 2D image addressed by texel, [sampler0]
    its filtering mode. *)
Definition texture_2d : Type := Z -> Z -> vec4f.
Inductive sampler : Type := LinearRepeat.

(** Comparisons of the shader, as booleans. *)
Definition ltb (a b : R) : bool := if Rlt_dec a b then true else false.
Definition gtb (a b : R) : bool := ltb b a.
Infix "<?" := ltb (at level 70) : R_scope.
Infix ">?" := gtb (at level 70) : R_scope.

Definition PI : R := 3.14159265359.
Definition EPSILON : R := 0.0001.

(** ** The shader *)

Record FoldState : Type := mkFold { fz : vec3f; fscale : R; ftrap : R }.
Record MarchState : Type := mkMarch { mt : R; mm : R; mhit : bool }.

Section Kernel.

Variable u : Uniforms.
Variable channel0 : texture_2d.
Variable sampler0 : sampler.

Definition rotate (p : vec3f) (angle : R) (axis : vec3f) : vec3f :=
  let a := normalize axis in
  let s := sin angle in
  let c := cos angle in
  let r := 1 - c in
  let m := mat3
    (vec3 (vx a * vx a * r + c) (vy a * vx a * r - vz a * s)
          (vz a * vx a * r + vy a * s))
    (vec3 (vx a * vy a * r + vz a * s) (vy a * vy a * r + c)
          (vz a * vy a * r - vx a * s))
    (vec3 (vx a * vz a * r - vy a * s) (vy a * vz a * r + vx a * s)
          (vz a * vz a * r + c)) in
  mat_mul_vec m p.

Definition hash (p : vec3f) : R :=
  let p3 := vfract (p *s 0.1031) in
  let d := dot p3 (vec3 (vy p3 + 19.19) (vz p3 + 19.19) (vx p3 + 19.19)) in
  fract ((vx p3 + vy p3) * vz p3 + d).

Definition noise (p : vec3f) : R :=
  let i := vfloor p in
  let f := vfract p in
  let w := f *v f *v map3 (fun c => 3 - 2 * c) f in
  mix
    (mix (mix (hash (i +v vec3 0 0 0)) (hash (i +v vec3 1 0 0)) (vx w))
         (mix (hash (i +v vec3 0 1 0)) (hash (i +v vec3 1 1 0)) (vx w))
         (vy w))
    (mix (mix (hash (i +v vec3 0 0 1)) (hash (i +v vec3 1 0 1)) (vx w))
         (mix (hash (i +v vec3 0 1 1)) (hash (i +v vec3 1 1 1)) (vx w))
         (vy w))
    (vz w).

Fixpoint fbm_loop (n : nat) (val amp : R) (pp : vec3f) : R :=
  match n with
  | O => val
  | S n' => fbm_loop n' (val + amp * noise pp) (amp * 0.5) (pp *s 2.02)
  end.

Definition fbm (p : vec3f) : R := fbm_loop 4 0 0.5 p.

(** [n] octaves are left to run, [i] is the loop counter. *)
Fixpoint sparkNoise_loop (n i : nat) (t val amp : R) (pp : vec3f) : R :=
  match n with
  | O => val
  | S n' =>
      let drift := vec3 (sin (t * 0.5 + INR i))
                        (t * (1 + INR i * 0.5))
                        (cos (t * 0.3 + INR i * 2)) in
      let nv := noise (pp +v drift) in
      sparkNoise_loop n' (S i) t (val + amp * Rabs (nv - 0.5)) (amp * 0.5)
                      (pp *s 2.1 +v vec3 4.03 1.2 9.1)
  end.

Definition sparkNoise (p : vec3f) (t : R) : R :=
  1 - sparkNoise_loop 3 0 t 0 1 p * 1.5.

Definition sdBox (p b : vec3f) : R :=
  let q := vabs p -v b in
  length (vmax q (splat 0)) + Rmin (Rmax (vx q) (Rmax (vy q) (vz q))) 0.

(** One pass of the body of the fold loop of [sdFractal]. *)
Definition fold_step (warp : R) (st : FoldState) : FoldState :=
  let z := vabs (fz st) in
  let z := if vx z <? vy z then vec3 (vy z) (vx z) (vz z) else z in
  let z := if vx z <? vz z then vec3 (vz z) (vy z) (vx z) else z in
  let z := if vy z <? vz z then vec3 (vx z) (vz z) (vy z) else z in
  let z := z *s 2 -s 1.2 * (detail u * 0.5 + 0.5) in
  let z := vec3 (vx z) (vy z)
                (vz z + sin (vx z * 2 + time u) * warp * 0.05) in
  let scale := fscale st * 2 in
  let trap := Rmin (ftrap st) (length z) in
  mkFold z scale trap.

Fixpoint fold_loop (n : nat) (warp : R) (st : FoldState) : FoldState :=
  match n with
  | O => st
  | S n' => fold_loop n' warp (fold_step warp st)
  end.

Definition sdFractal (p : vec3f) : R :=
  let warp := wy (audio u) * 0.2 in
  let z := p in
  let z := rotate z (time u * animSpeed u * 0.05) (vec3 0 1 0) in
  let z := rotate z (time u * animSpeed u * 0.02) (vec3 1 0 1) in
  let iter := 4%nat in
  let st := fold_loop iter warp (mkFold z 1 1000) in
  let boxDist := sdBox (fz st) (vec3 1.2 1.2 4) / fscale st in
  let sphereDist := (length (fz st) - 2.5) / fscale st in
  Rmax boxDist sphereDist.

(** Material ids, as the second component of what [map] returns. *)
Definition Fractal : R := 1.
Definition Floor : R := 2.

Definition map (p : vec3f) : vec2f :=
  let finalObj := sdFractal p - 0.01 in
  let floorHeight := - 2.2 in
  let floorDist := vy p - floorHeight in
  if finalObj <? floorDist then vec2 finalObj Fractal
  else vec2 floorDist Floor.

Definition calcNormal (p : vec3f) : vec3f :=
  let e := vec2 EPSILON 0 in
  let xyy := vec3 (x2 e) (y2 e) (y2 e) in
  let yxy := vec3 (y2 e) (x2 e) (y2 e) in
  let yyx := vec3 (y2 e) (y2 e) (x2 e) in
  normalize (vec3
    (x2 (map (p +v xyy)) - x2 (map (p -v xyy)))
    (x2 (map (p +v yxy)) - x2 (map (p -v yxy)))
    (x2 (map (p +v yyx)) - x2 (map (p -v yyx)))).

Fixpoint getAO_loop (n i : nat) (p nrm : vec3f) (occ sca : R) : R :=
  match n with
  | O => occ
  | S n' =>
      let h := 0.01 + 0.12 * INR i / 4 in
      let d := x2 (map (p +v nrm *s h)) in
      getAO_loop n' (S i) p nrm (occ + (h - d) * sca) (sca * 0.95)
  end.

Definition getAO (p n : vec3f) : R :=
  let occ := getAO_loop 5 0 p n 0 1 in
  clamp (1 - 3 * occ) 0 1 * (0.5 + 0.5 * vy n).

Fixpoint getShadow_loop (n : nat) (ro rd : vec3f) (tmax k res t : R) : R :=
  match n with
  | O => res
  | S n' =>
      let h := x2 (map (ro +v rd *s t)) in
      let res := Rmin res (k * h / t) in
      let t := t + clamp h 0.002 0.2 in
      if ((res <? 0.001) || (t >? tmax))%bool then res
      else getShadow_loop n' ro rd tmax k res t
  end.

Definition getShadow (ro rd : vec3f) (tmin tmax k : R) : R :=
  let res := getShadow_loop 32 ro rd tmax k 1 tmin in
  clamp res 0 1.

(** *** PBR math.  The divisor of each quotient is a definition of its
    own. *)

Definition distributionGGX_divisor (N H : vec3f) (roughness : R) : R :=
  let a := roughness * roughness in
  let a2 := a * a in
  let NdotH := Rmax (dot N H) 0 in
  let NdotH2 := NdotH * NdotH in
  let denom := NdotH2 * (a2 - 1) + 1 in
  let denom := PI * denom * denom in
  Rmax denom 0.00001.

Definition distributionGGX (N H : vec3f) (roughness : R) : R :=
  let a := roughness * roughness in
  let a2 := a * a in
  let num := a2 in
  num / distributionGGX_divisor N H roughness.

Definition geometrySchlickGGX_divisor (NdotV roughness : R) : R :=
  let r := roughness + 1 in
  let k := r * r / 8 in
  let denom := NdotV * (1 - k) + k in
  Rmax denom 0.00001.

Definition geometrySchlickGGX (NdotV roughness : R) : R :=
  let num := NdotV in
  num / geometrySchlickGGX_divisor NdotV roughness.

Definition geometrySmith (N V L : vec3f) (roughness : R) : R :=
  let NdotV := Rmax (dot N V) 0 in
  let NdotL := Rmax (dot N L) 0 in
  let ggx2 := geometrySchlickGGX NdotV roughness in
  let ggx1 := geometrySchlickGGX NdotL roughness in
  ggx1 * ggx2.

Definition fresnelSchlick (cosTheta : R) (F0 : vec3f) : vec3f :=
  F0 +v (splat 1 -v F0) *s wpow (clamp (1 - cosTheta) 0 1) 5.

Definition getSky (rd : vec3f) : vec3f :=
  let col := vmix (vec3 0.01 0.015 0.02) (vec3 0.05 0.05 0.06)
                  (vy rd * 0.5 + 0.5) in
  let kPos := normalize (vec3 (- 0.5) 0.8 0.5) in
  let kSpec := Rmax (dot rd kPos) 0 in
  let col := col +v vec3 2 2.1 2.3 *s smoothstep 0.9 0.99 kSpec *s 4 in
  let rPos := normalize (vec3 0 0.5 (- 1)) in
  let rSpec := Rmax (dot rd rPos) 0 in
  let col := col +v splat 3 *s wpow rSpec 100 *s 2 in
  col.

Definition lights (i : nat) : vec4f :=
  match i with
  | 0%nat => vec4 (- 2) 5 3 10
  | 1%nat => vec4 5 2 (- 3) 5
  | _ => vec4 0 4 (- 5) 8
  end.

Definition lCols (i : nat) : vec3f :=
  match i with
  | 0%nat => vec3 1 0.95 0.9
  | 1%nat => vec3 0.8 0.85 1
  | _ => vec3 1 1 1
  end.

Definition attenuation_divisor (i : nat) (p : vec3f) : R :=
  let Lvector := xyz (lights i) -v p in
  let dist := length Lvector in
  dist * dist.

Definition specular_divisor (n v L : vec3f) : R :=
  4 * Rmax (dot n v) 0 * Rmax (dot n L) 0 + 0.0001.

(** What light [i] adds to [Lo] in the loop of [renderPBR]. *)
Definition light_term (i : nat) (p n v baseCol : vec3f)
    (metal roughness : R) (F0 : vec3f) : vec3f :=
  let lPos := xyz (lights i) in
  let lPower := ww (lights i) in
  let lCol := lCols i in
  let Lvector := lPos -v p in
  let dist := length Lvector in
  let L := normalize Lvector in
  let H := normalize (v +v L) in
  let attenuation := 1 / attenuation_divisor i p in
  let radiance := lCol *s lPower *s attenuation in
  let shadow :=
    if Nat.eqb i 0 then getShadow (p +v n *s 0.01) L 0.05 dist 16 else 1 in
  let NDF := distributionGGX n H roughness in
  let G := geometrySmith n v L roughness in
  let F := fresnelSchlick (Rmax (dot H v) 0) F0 in
  let num := F *s (NDF * G) in
  let den := specular_divisor n v L in
  let specular := num /s den in
  let kS := F in
  let kD := splat 1 -v kS in
  let kD := kD *s (1 - metal) in
  let NdotL := Rmax (dot n L) 0 in
  (kD *v baseCol /s PI +v specular) *v radiance *s NdotL *s shadow.

Fixpoint renderPBR_loop (k i : nat) (p n v baseCol : vec3f)
    (metal roughness : R) (F0 Lo : vec3f) : vec3f :=
  match k with
  | O => Lo
  | S k' =>
      renderPBR_loop k' (S i) p n v baseCol metal roughness F0
        (Lo +v light_term i p n v baseCol metal roughness F0)
  end.

Definition renderPBR (p n v baseCol : vec3f) (metal roughness ao : R)
    : vec3f :=
  let F0 := splat 0.04 in
  let F0 := vmix F0 baseCol metal in
  let Lo := renderPBR_loop 3 0 p n v baseCol metal roughness F0 (splat 0) in
  let kS := fresnelSchlick (Rmax (dot n v) 0) F0 in
  let kD := (splat 1 -v kS) *s (1 - metal) in
  let irradiance := getSky n *s 0.15 in
  let diffuse := irradiance *v baseCol in
  let r := reflect (vneg v) n in
  let reflection := getSky r in
  let specIBL := reflection *s (1 - roughness) in
  let ambient := (kD *v diffuse +v specIBL *v kS) *s ao in
  Lo +v ambient.

(** *** Sphere tracing *)

Fixpoint raymarch_loop (n : nat) (ro rd : vec3f) (st : MarchState)
    : MarchState :=
  match n with
  | O => st
  | S n' =>
      let pos := ro +v rd *s mt st in
      let h := map pos in
      if x2 h <? EPSILON then mkMarch (mt st) (y2 h) true
      else if mt st >? 30 then st
      else raymarch_loop n' ro rd (mkMarch (mt st + x2 h * 0.7) (mm st) (mhit st))
  end.

Definition raymarch (ro rd : vec3f) : vec3f :=
  let st := raymarch_loop 160 ro rd (mkMarch 0 (- 1) false) in
  if mhit st then vec3 (mt st) (mm st) 1
  else vec3 (mt st) (- 1) 0.

(** *** The electricity pass *)

(** What one sample at [pos] adds to [acc] in [getGlow], once the
    sample has passed the test on [geoD]. *)
Definition glow_term (pos : vec3f) (geoD tParams : R) : vec3f :=
  let noiseVal := sparkNoise (pos *s 3.5) tParams in
  let distToLine := Rabs (noiseVal - 0.4) in
  let intensity :=
    0.0003 / (distToLine * distToLine * distToLine + 0.000001) in
  let branchMask :=
    smoothstep 0.35 0.55 (noise (pos *s 4 +v vec3 0 (tParams * 0.5) 0)) in
  let heat := smoothstep 5 60 intensity in
  let color := vmix (xyz (electricColor u)) (vec3 1 1 1) heat in
  let surfaceFade := smoothstep 0.3 0 geoD in
  color *s intensity *s surfaceFade *s branchMask
        *s electricIntensity u *s 0.002.

Fixpoint getGlow_loop (n : nat) (ro rd : vec3f) (tParams tEnd : R)
    (acc : vec3f) (t : R) : vec3f :=
  match n with
  | O => acc
  | S n' =>
      if t >? tEnd then acc
      else
        let pos := ro +v rd *s t in
        let geoD := sdFractal pos in
        let acc :=
          if geoD <? 0.4 then acc +v glow_term pos geoD tParams else acc in
        getGlow_loop n' ro rd tParams tEnd acc (t + 0.15)
  end.

Definition getGlow (ro rd : vec3f) (maxT : R) : vec3f :=
  let acc := splat 0 in
  let tParams := time u * electricSpeed u * 2 in
  let t := 0.5 in
  let tEnd := Rmin maxT 15 in
  let t := t + hash (rd *s time u) * 0.2 in
  getGlow_loop 35 ro rd tParams tEnd acc t.

(** *** The fragment stage *)

Record Surface : Type := mkSurface {
  s_albedo : vec3f; s_roughness : R; s_metallic : R; s_nor : vec3f
}.

(** The [m > 1.5] branch of [fs_main]: the floor. *)
Definition floor_surface (pos nor : vec3f) : Surface :=
  let f := fbm (pos *s 2) in
  let albedo := splat 0.05 +s f * 0.02 in
  let roughness := 0.3 + f * 0.2 in
  let metal := 0 in
  let bump :=
    normalize (vec3 (fbm (pos *s 10)) 0.5 (fbm (pos *s 10 +s 1))) in
  let nor := normalize (nor +v bump *s 0.05) in
  let falloff := exp (- length2 (vec2 (vx pos) (vz pos)) * 0.1) in
  let roughness := mix roughness 1 (1 - falloff) in
  let tParams := time u * electricSpeed u * 2 in
  let sparkN := sparkNoise (pos *s 3.5) tParams in
  let arcVal := Rabs (sparkN - 0.4) in
  let electricGlow := 0.0003 / (arcVal * arcVal * arcVal + 0.00001) in
  let albedo :=
    albedo +v xyz (electricColor u) *s electricGlow
              *s electricIntensity u *s 0.02 in
  mkSurface albedo roughness metal nor.

(** The other branch: the fractal. *)
Definition fractal_surface (pos nor : vec3f) (ao micro : R) : Surface :=
  let albedo := xyz (baseColor u) in
  let roughness := detail u in
  let metal := metallic u in
  let curv := clamp (1 - ao) 0 1 in
  let albedo := vmix albedo (vec3 0.8 0.7 0.5) (micro * 0.2) in
  let roughness := mix roughness 0.8 curv in
  let metal := mix metal 0 (curv * 0.5) in
  let scratches := noise (pos *s 50 *v vec3 1 10 1) in
  let roughness := roughness + scratches * 0.1 in
  let noiseN := fbm (pos *s 20) in
  let nor := normalize (nor +v splat noiseN *s 0.02) in
  mkSurface albedo roughness metal nor.

(** The body of [if (hit > 0.5)]: the colour of a sample whose primary
    ray hit material [m] at distance [t]. *)
Definition shade_hit (ro rd : vec3f) (t m : R) : vec3f :=
  let pos := ro +v rd *s t in
  let nor := calcNormal pos in
  let view := vneg rd in
  let ao := getAO pos nor in
  let micro := fbm (pos *s 8) in
  let sf :=
    if m >? 1.5 then floor_surface pos nor
    else fractal_surface pos nor ao micro in
  let albedo := s_albedo sf in
  let roughness := s_roughness sf in
  let metal := s_metallic sf in
  let nor := s_nor sf in
  let col := renderPBR pos nor view albedo metal roughness ao in
  let col :=
    if ((isRendering u >? 0.5) && (roughness <? 0.5))%bool then
      let rDir := reflect rd nor in
      let refRes := raymarch (pos +v nor *s 0.05) rDir in
      if vz refRes >? 0.5 then
        let rPos := pos +v nor *s 0.05 +v rDir *s vx refRes in
        let rNor := calcNormal rPos in
        let rAO := getAO rPos rNor in
        let rLight :=
          renderPBR rPos rNor (vneg rDir) (xyz (baseColor u)) (metallic u)
                    0.5 rAO in
        let F0 := vmix (splat 0.04) albedo metal in
        let F := fresnelSchlick (Rmax (dot nor view) 0) F0 in
        vmix3 col rLight (F *s (1 - roughness))
      else col
    else col in
  vmix col (vec3 0.01 0.015 0.02) (1 - exp (- 0.02 * t * t)).

(** The direction of the primary ray of sub-sample [i]. *)
Definition sample_ray (aaSamples i : nat) (uv : vec2f) (uu vv ww : vec3f)
    : vec3f :=
  let offset :=
    if (1 <? aaSamples)%nat then
      let r1 := fract (sin (INR i * 12.9898 + x2 uv) * 43758.5453) in
      let r2 := fract (cos (INR i * 4.1414 + y2 uv) * 53211.5543) in
      vec2 ((r1 - 0.5) / x2 (resolution u)) ((r2 - 0.5) / y2 (resolution u))
    else vec2 0 0 in
  let p := vec2
    ((- x2 (resolution u) + 2 * (x2 uv + x2 offset) * x2 (resolution u))
       / y2 (resolution u))
    ((- y2 (resolution u) + 2 * (y2 uv + y2 offset) * y2 (resolution u))
       / y2 (resolution u)) in
  normalize (uu *s x2 p +v vv *s y2 p +v ww *s 2).

(** The colour of a sample before the electricity pass. *)
Definition shade_sample (ro rd : vec3f) (res : vec3f) : vec3f :=
  let t := vx res in
  let m := vy res in
  let hit := vz res in
  let col := getSky rd *s 0.05 in
  if hit >? 0.5 then shade_hit ro rd t m else col.

(** The electricity pass on top of it. *)
Definition add_glow (ro rd : vec3f) (t : R) (col : vec3f) : vec3f :=
  if electricIntensity u >? 0.01 then
    let electricity := getGlow ro rd t in
    col +v electricity
  else col.

(** One pass of the body of the sample loop: the value of [col] that is
    added to [finalColor]. *)
Definition sample_color (aaSamples i : nat) (uv : vec2f)
    (ro uu vv ww : vec3f) : vec3f :=
  let rd := sample_ray aaSamples i uv uu vv ww in
  let res := raymarch ro rd in
  let col := shade_sample ro rd res in
  add_glow ro rd (vx res) col.

Fixpoint aa_loop (n i aaSamples : nat) (uv : vec2f) (ro uu vv ww : vec3f)
    (finalColor : vec3f) : vec3f :=
  match n with
  | O => finalColor
  | S n' =>
      aa_loop n' (S i) aaSamples uv ro uu vv ww
        (finalColor +v sample_color aaSamples i uv ro uu vv ww)
  end.

(** The factor of the line under [// Post]. *)
Definition vignette_base (q : vec2f) : R :=
  16 * x2 q * y2 q * (1 - x2 q) * (1 - y2 q).

Definition vignette_factor (q : vec2f) : R :=
  0.5 + 0.5 * wpow (vignette_base q) (vignette u).

(** The ACES fit on one channel, after exposure. *)
Definition aces (exposed : R) : R :=
  let a := 2.51 in
  let b := 0.03 in
  let c := 2.43 in
  let d := 0.59 in
  let e := 0.14 in
  (exposed * (a * exposed + b)) / (exposed * (c * exposed + d) + e).

(** The last three statements of [fs_main] on one channel, and on the
    colour. *)
Definition tonemap_channel (c : R) : R :=
  let exposed := c * 1.5 in
  let c := clamp (aces exposed) 0 1 in
  wpow c (1 / 2.2).

Definition tonemap (finalColor : vec3f) : vec3f :=
  map3 tonemap_channel finalColor.

Definition fs_main (uv : vec2f) : vec4f :=
  let ro := xyz (cameraPos u) in
  let ta := vec3 0 (- 0.5) 0 in
  let ww := normalize (ta -v ro) in
  let uu := normalize (cross ww (vec3 0 1 0)) in
  let vv := normalize (cross uu ww) in
  let finalColor := splat 0 in
  let aaSamples := if isRendering u >? 0.5 then 2%nat else 1%nat in
  let finalColor := aa_loop aaSamples 0 aaSamples uv ro uu vv ww finalColor in
  let finalColor := finalColor /s INR aaSamples in
  let q := uv in
  let finalColor := finalColor *s vignette_factor q in
  let noiseG :=
    fract (sin (dot2 (vec2 (x2 uv * x2 (resolution u))
                           (y2 uv * y2 (resolution u)))
                     (vec2 (12.9898 * time u) (78.233 * time u)))
           * 43758.5453) in
  let finalColor := finalColor +s (noiseG - 0.5) * grainStrength u in
  let finalColor := tonemap finalColor in
  vec4_of finalColor 1.

End Kernel.

(** The resources bound to one draw, and the invocation of the fragment
    stage on them. *)
Record Bindings : Type := mkBindings {
  bound_u : Uniforms;
  bound_channel0 : texture_2d;
  bound_sampler0 : sampler
}.

Definition invoke_fragment (b : Bindings) (uv : vec2f) : vec4f :=
  fs_main (bound_u b) uv.

(** ** The parameters the host starts with

    [params] and [cameraState] of the renderer component, at elapsed
    time [0], no audio source attached, on an 800 by 600 canvas. *)
Definition default_camera : vec4f :=
  let theta := 0.5 in
  let phi := 0.3 in
  let radius := 4.5 in
  vec4 (radius * cos phi * sin theta) (radius * sin phi)
       (radius * cos phi * cos theta) 0.

Definition default_uniforms : Uniforms := {|
  resolution := vec2 800 600;
  time := 0;
  dt := 0;
  cameraPos := default_camera;
  mouse := vec4 0 0 0 0;
  animSpeed := 0.2;
  detail := 0.35;
  vignette := 0.2;
  metallic := 1;
  baseColor := vec4 0.8 0.8 0.85 0;
  grainStrength := 0;
  lightAz := 0.1;
  lightEl := 0.6;
  isRendering := 0;
  aberrationStrength := 0;
  electricSpeed := 0.8;
  electricIntensity := 12;
  electricColor := vec4 0.1 0.6 1 0;
  audio := vec4 0 0 0 0
|}.

(** ** [sdFractal] without the trap

    The same function with the [trap] variable and its update
    [trap = min(trap, length(z))] deleted from the fold loop. *)

Section NoTrap.

Variable u : Uniforms.

Definition fold_step_notrap (warp : R) (zs : vec3f * R) : vec3f * R :=
  let z := vabs (fst zs) in
  let z := if vx z <? vy z then vec3 (vy z) (vx z) (vz z) else z in
  let z := if vx z <? vz z then vec3 (vz z) (vy z) (vx z) else z in
  let z := if vy z <? vz z then vec3 (vx z) (vz z) (vy z) else z in
  let z := z *s 2 -s 1.2 * (detail u * 0.5 + 0.5) in
  let z := vec3 (vx z) (vy z)
                (vz z + sin (vx z * 2 + time u) * warp * 0.05) in
  let scale := snd zs * 2 in
  (z, scale).

Fixpoint fold_loop_notrap (n : nat) (warp : R) (zs : vec3f * R)
    : vec3f * R :=
  match n with
  | O => zs
  | S n' => fold_loop_notrap n' warp (fold_step_notrap warp zs)
  end.

Definition sdFractal_notrap (p : vec3f) : R :=
  let warp := wy (audio u) * 0.2 in
  let z := p in
  let z := rotate z (time u * animSpeed u * 0.05) (vec3 0 1 0) in
  let z := rotate z (time u * animSpeed u * 0.02) (vec3 1 0 1) in
  let iter := 4%nat in
  let zs := fold_loop_notrap iter warp (z, 1) in
  let boxDist := sdBox (fst zs) (vec3 1.2 1.2 4) / snd zs in
  let sphereDist := (length (fst zs) - 2.5) / snd zs in
  Rmax boxDist sphereDist.

End NoTrap.

(** ** Auxiliary definitions of the proofs *)

(** The amount subtracted from every component in a fold of
    [sdFractal]. *)
Definition fold_offset (u : Uniforms) : R := 1.2 * (detail u * 0.5 + 0.5).

(** The distance at which the ray from [(0,0,20)] towards the origin
    meets the biased surface of the fractal at rest. *)
Definition axis_hit : R := 19.155625.

(** Moving one slider of the parameter panel. *)
Definition set_electricIntensity (e : R) (u : Uniforms) : Uniforms :=
  mkUniforms (resolution u) (time u) (dt u) (cameraPos u) (mouse u)
    (animSpeed u) (detail u) (vignette u) (metallic u) (baseColor u)
    (grainStrength u) (lightAz u) (lightEl u) (isRendering u)
    (aberrationStrength u) (electricSpeed u) e (electricColor u) (audio u).

Definition set_vignette (v : R) (u : Uniforms) : Uniforms :=
  mkUniforms (resolution u) (time u) (dt u) (cameraPos u) (mouse u)
    (animSpeed u) (detail u) v (metallic u) (baseColor u)
    (grainStrength u) (lightAz u) (lightEl u) (isRendering u)
    (aberrationStrength u) (electricSpeed u) (electricIntensity u)
    (electricColor u) (audio u).

(** The default parameters with the arc intensity slider at [0]. *)
Definition quiet_uniforms : Uniforms :=
  set_electricIntensity 0 default_uniforms.

(** The ray parameter of the [k]-th sample of the loop of [getGlow]:
    the dithered start and [k] steps of [0.15]. *)
Definition glow_sample (u : Uniforms) (rd : vec3f) (k : nat) : R :=
  0.5 + hash (rd *s time u) * 0.2 + 0.15 * INR k.

(** Componentwise order on colours. *)
Definition nonneg3 (a : vec3f) : Prop := 0 <= vx a /\ 0 <= vy a /\ 0 <= vz a.
Definition le3 (a b : vec3f) : Prop :=
  vx a <= vx b /\ vy a <= vy b /\ vz a <= vz b.

(** Two images bound as [channel0]. *)
Definition black_texture : texture_2d := fun _ _ => vec4 0 0 0 1.
Definition white_texture : texture_2d := fun _ _ => vec4 1 1 1 1.

(** The largest absolute value of a component. *)
Definition max_abs (p : vec3f) : R :=
  Rmax (Rabs (vx p)) (Rmax (Rabs (vy p)) (Rabs (vz p))).

(** The three conditional swaps of the fold loop of [sdFractal], and
    what the loop body does to [z] after them. *)
Definition sort3 (z : vec3f) : vec3f :=
  let z := if vx z <? vy z then vec3 (vy z) (vx z) (vz z) else z in
  let z := if vx z <? vz z then vec3 (vz z) (vy z) (vx z) else z in
  let z := if vy z <? vz z then vec3 (vx z) (vz z) (vy z) else z in
  z.

Definition fold_finish (u : Uniforms) (warp : R) (z : vec3f) : vec3f :=
  let z := z *s 2 -s 1.2 * (detail u * 0.5 + 0.5) in
  vec3 (vx z) (vy z) (vz z + sin (vx z * 2 + time u) * warp * 0.05).

(** The point is inside the box of half extents [b], faces included. *)
Definition in_box (p b : vec3f) : Prop :=
  Rabs (vx p) <= vx b /\ Rabs (vy p) <= vy b /\ Rabs (vz p) <= vz b.

(** The vector of central differences that [calcNormal] normalizes. *)
Definition scene_gradient (u : Uniforms) (p : vec3f) : vec3f :=
  vec3
    (x2 (map u (p +v vec3 EPSILON 0 0)) - x2 (map u (p -v vec3 EPSILON 0 0)))
    (x2 (map u (p +v vec3 0 EPSILON 0)) - x2 (map u (p -v vec3 0 EPSILON 0)))
    (x2 (map u (p +v vec3 0 0 EPSILON)) - x2 (map u (p -v vec3 0 0 EPSILON))).

(** Componentwise bounds of a colour. *)
Definition unit3 (a : vec3f) : Prop :=
  0 <= vx a <= 1 /\ 0 <= vy a <= 1 /\ 0 <= vz a <= 1.

(** Two parameter blocks agree on every field and component that the
    shader mentions: all but [dt], [mouse], [lightAz], [lightEl],
    [aberrationStrength], the fourth component of [cameraPos],
    [baseColor] and [electricColor], and the volume, mid and high bands
    of [audio]. *)
Definition same_read (u u' : Uniforms) : Prop :=
  resolution u = resolution u'
  /\ time u = time u'
  /\ xyz (cameraPos u) = xyz (cameraPos u')
  /\ animSpeed u = animSpeed u'
  /\ detail u = detail u'
  /\ vignette u = vignette u'
  /\ metallic u = metallic u'
  /\ xyz (baseColor u) = xyz (baseColor u')
  /\ grainStrength u = grainStrength u'
  /\ isRendering u = isRendering u'
  /\ electricSpeed u = electricSpeed u'
  /\ electricIntensity u = electricIntensity u'
  /\ xyz (electricColor u) = xyz (electricColor u')
  /\ wy (audio u) = wy (audio u').

(** The default parameters with the mouse moved, the light sliders
    turned and the volume band of the audio raised. *)
Definition touched_uniforms : Uniforms := {|
  resolution := resolution default_uniforms;
  time := time default_uniforms;
  dt := 0.016;
  cameraPos := cameraPos default_uniforms;
  mouse := vec4 120 340 1 0;
  animSpeed := animSpeed default_uniforms;
  detail := detail default_uniforms;
  vignette := vignette default_uniforms;
  metallic := metallic default_uniforms;
  baseColor := baseColor default_uniforms;
  grainStrength := grainStrength default_uniforms;
  lightAz := 0.9;
  lightEl := 0.2;
  isRendering := isRendering default_uniforms;
  aberrationStrength := 1.5;
  electricSpeed := electricSpeed default_uniforms;
  electricIntensity := electricIntensity default_uniforms;
  electricColor := electricColor default_uniforms;
  audio := vec4 0.7 0 0.3 0.1
|}.

(** ** The host: orbit camera and recording shots

    The camera of the renderer component ([cameraState], the mouse and
    wheel handlers, and the camera lines of [render]).  JavaScript
    numbers are read as reals and [Math.PI] as the real number pi. *)

Record CameraState : Type := mkCamera {
  theta : R; phi : R; radius : R;
  isDragging : bool; lastX : R; lastY : R
}.

Record MouseState : Type := mkMouse { mouseX : R; mouseY : R; isDown : R }.

Record HostState : Type := mkHost {
  cameraState : CameraState;
  mouseState : MouseState
}.

Definition initial_host : HostState :=
  mkHost (mkCamera 0.5 0.3 4.5 false 0 0) (mkMouse 0 0 0).

Definition handleMouseDown (clientX clientY : R) (h : HostState)
    : HostState :=
  let c := cameraState h in
  let m := mouseState h in
  mkHost (mkCamera (theta c) (phi c) (radius c) true clientX clientY)
         (mkMouse (mouseX m) (mouseY m) 1).

Definition handleMouseMove (clientX clientY : R) (h : HostState)
    : HostState :=
  let c := cameraState h in
  let m := mkMouse clientX clientY (isDown (mouseState h)) in
  if isDragging c then
    let dx := clientX - lastX c in
    let dy := clientY - lastY c in
    mkHost (mkCamera (theta c - dx * 0.005)
              (Rmax 0.1 (Rmin (Rtrigo1.PI - 0.1) (phi c + dy * 0.005)))
              (radius c) (isDragging c) clientX clientY)
           m
  else mkHost c m.

Definition handleMouseUp (h : HostState) : HostState :=
  let c := cameraState h in
  let m := mouseState h in
  mkHost (mkCamera (theta c) (phi c) (radius c) false (lastX c) (lastY c))
         (mkMouse (mouseX m) (mouseY m) 0).

Definition handleWheel (deltaY : R) (h : HostState) : HostState :=
  let c := cameraState h in
  mkHost (mkCamera (theta c) (phi c)
            (Rmax 2 (Rmin 20 (radius c + deltaY * 0.005)))
            (isDragging c) (lastX c) (lastY c))
         (mouseState h).

(** The events bound on the canvas container; [onMouseLeave] is bound
    to [handleMouseUp]. *)
Inductive HostEvent : Type :=
| MouseDown (clientX clientY : R)
| MouseMove (clientX clientY : R)
| MouseUp
| MouseLeave
| Wheel (deltaY : R).

Definition dispatch (h : HostState) (e : HostEvent) : HostState :=
  match e with
  | MouseDown x y => handleMouseDown x y h
  | MouseMove x y => handleMouseMove x y h
  | MouseUp => handleMouseUp h
  | MouseLeave => handleMouseUp h
  | Wheel d => handleWheel d h
  end.

Definition run_events (es : list HostEvent) (h : HostState) : HostState :=
  List.fold_left dispatch es h.

(** [cx], [cy], [cz] of [render]. *)
Definition orbit_position (cameraTheta cameraPhi cameraRadius : R) : vec3f :=
  vec3 (cameraRadius * cos cameraPhi * sin cameraTheta)
       (cameraRadius * sin cameraPhi)
       (cameraRadius * cos cameraPhi * cos cameraTheta).

(** The shot types that [render] tests for; any other shot leaves the
    camera as the user left it. *)
Inductive ShotType : Type :=
| Orbit | Sweep | Dolly | Breathing | Chaos | OtherShot.

(** The camera angles and radius of a frame that is being recorded,
    [elapsedTime] seconds into a recording of [duration] seconds. *)
Definition shot_camera (shot : ShotType) (elapsedTime duration : R)
    (c : CameraState) : R * R * R :=
  let cameraTheta := theta c in
  let cameraPhi := phi c in
  let cameraRadius := radius c in
  let progress := Rmin 1 (elapsedTime / duration) in
  match shot with
  | Orbit => (cameraTheta + elapsedTime * 0.5, cameraPhi, cameraRadius)
  | Sweep => (cameraTheta + elapsedTime * 0.3, 0.1, 6)
  | Dolly => (cameraTheta + elapsedTime * 0.1, cameraPhi, 6 - progress * 2)
  | Breathing =>
      (cameraTheta + elapsedTime * 0.2, cameraPhi,
       5 + sin (elapsedTime * 0.8) * 0.5)
  | Chaos =>
      (cameraTheta + elapsedTime * 0.5, sin (elapsedTime * 2) * 0.5,
       4 + cos (elapsedTime * 3) * 0.5)
  | OtherShot => (cameraTheta, cameraPhi, cameraRadius)
  end.

(** The camera position that [render] writes into the uniform block:
    of the user's camera outside a recording, of the shot inside one. *)
Definition frame_camera (recording : option (ShotType * R * R))
    (c : CameraState) : vec3f :=
  match recording with
  | None => orbit_position (theta c) (phi c) (radius c)
  | Some (shot, elapsedTime, duration) =>
      let '(t, p, r) := shot_camera shot elapsedTime duration c in
      orbit_position t p r
  end.

(** The height of the [i]-th probe of [getAO]. *)
Definition ao_height (i : nat) : R := 0.01 + 0.12 * INR i / 4.

(** * Proofs *)

(** ** Comparisons and builtins *)

Lemma ltb_lt (a b : R) : a < b -> (a <? b) = true.
Proof. intro H. unfold ltb. destruct (Rlt_dec a b); [reflexivity | contradiction]. Qed.

Lemma ltb_ge (a b : R) : b <= a -> (a <? b) = false.
Proof. intro H. unfold ltb. destruct (Rlt_dec a b); [lra | reflexivity]. Qed.

Lemma gtb_gt (a b : R) : b < a -> (a >? b) = true.
Proof. apply ltb_lt. Qed.

Lemma gtb_le (a b : R) : a <= b -> (a >? b) = false.
Proof. apply ltb_ge. Qed.

(** Case analysis on every comparison, maximum, minimum and absolute
    value in sight, then linear arithmetic. *)
Ltac rcases :=
  unfold clamp, ltb, gtb, Rmax, Rmin, Rabs in *;
  repeat match goal with
  | |- context [Rlt_dec ?a ?b] => destruct (Rlt_dec a b)
  | |- context [Rle_dec ?a ?b] => destruct (Rle_dec a b)
  | |- context [Rcase_abs ?a] => destruct (Rcase_abs a)
  | H : context [Rlt_dec ?a ?b] |- _ => revert H; destruct (Rlt_dec a b); intro
  | H : context [Rle_dec ?a ?b] |- _ => revert H; destruct (Rle_dec a b); intro
  | H : context [Rcase_abs ?a] |- _ => revert H; destruct (Rcase_abs a); intro
  end;
  simpl in *; try lra.

Lemma clamp_range (e lo hi : R) : lo <= hi -> lo <= clamp e lo hi <= hi.
Proof. intro H. rcases. Qed.

Lemma clamp_mono (a b lo hi : R) :
  a <= b -> clamp a lo hi <= clamp b lo hi.
Proof. intro H. rcases. Qed.

Lemma smoothstep_range (lo hi e : R) : 0 <= smoothstep lo hi e <= 1.
Proof.
  unfold smoothstep.
  pose proof (clamp_range ((e - lo) / (hi - lo)) 0 1 Rle_0_1) as Ht.
  set (t := clamp _ 0 1) in *.
  assert (Hsq : 0 <= t * t) by nra.
  assert (Hsq' : 0 <= (1 - t) * (1 - t)) by nra.
  split.
  - apply Rmult_le_pos; lra.
  - replace (t * t * (3 - 2 * t))
      with (1 - (1 - t) * (1 - t) * (1 + 2 * t)) by ring.
    assert (0 <= (1 - t) * (1 - t) * (1 + 2 * t))
      by (apply Rmult_le_pos; lra).
    lra.
Qed.

Lemma length_nonneg (a : vec3f) : 0 <= length a.
Proof. apply sqrt_pos. Qed.

Lemma dot_self_nonneg (a : vec3f) : 0 <= dot a a.
Proof. unfold dot. nra. Qed.

(** The length of a vector is at least each component. *)
Lemma length_ge_vx (a : vec3f) : vx a <= length a.
Proof.
  unfold length.
  destruct (Rle_dec 0 (vx a)) as [Hx | Hx].
  - rewrite <- (sqrt_square (vx a)) at 1 by assumption.
    apply sqrt_le_1_alt. unfold dot. nra.
  - pose proof (sqrt_pos (dot a a)). lra.
Qed.

(** ** The fold loop carries [z] and [scale] independently of [trap] *)

Lemma fold_step_notrap_eq (u : Uniforms) (warp : R) (st : FoldState) :
  fold_step_notrap u warp (fz st, fscale st)
  = (fz (fold_step u warp st), fscale (fold_step u warp st)).
Proof. reflexivity. Qed.

Lemma fold_loop_notrap_eq (u : Uniforms) (warp : R) (n : nat) :
  forall st : FoldState,
    fold_loop_notrap u n warp (fz st, fscale st)
    = (fz (fold_loop u n warp st), fscale (fold_loop u n warp st)).
Proof.
  induction n as [| n IH]; intro st; simpl.
  - reflexivity.
  - rewrite fold_step_notrap_eq. apply IH.
Qed.

Lemma sdFractal_notrap_eq (u : Uniforms) (p : vec3f) :
  sdFractal_notrap u p = sdFractal u p.
Proof.
  unfold sdFractal_notrap, sdFractal.
  cbv zeta.
  match goal with
  | |- context [fold_loop u 4 ?w ?st] =>
      change (fold_loop_notrap u 4 w _)
        with (fold_loop_notrap u 4 w (fz st, fscale st));
      rewrite (fold_loop_notrap_eq u w 4 st)
  end.
  reflexivity.
Qed.

(** ** The fractal at rest: time [0]

    At time [0] both rotations of [sdFractal] are by the angle [0]. *)

Lemma rotate_zero (p axis : vec3f) : rotate p 0 axis = p.
Proof.
  destruct p as [px py pz].
  unfold rotate, mat_mul_vec, vadd, vscale, zip3, map3. simpl.
  rewrite sin_0, cos_0. f_equal; ring.
Qed.

Lemma sdFractal_at_rest (u : Uniforms) (p : vec3f) :
  time u = 0 ->
  sdFractal u p =
    let zs := fold_loop_notrap u 4 (wy (audio u) * 0.2) (p, 1) in
    Rmax (sdBox (fst zs) (vec3 1.2 1.2 4) / snd zs)
         ((length (fst zs) - 2.5) / snd zs).
Proof.
  intro Ht.
  rewrite <- sdFractal_notrap_eq. unfold sdFractal_notrap. rewrite Ht.
  replace (0 * animSpeed u * 0.05) with 0 by ring.
  replace (0 * animSpeed u * 0.02) with 0 by ring.
  rewrite !rotate_zero. reflexivity.
Qed.

(** After a fold the first component is at least twice the absolute
    value of any component before it, less the offset; the scale
    doubles. *)
Lemma fold_step_grows (u : Uniforms) (warp : R) (z : vec3f) (sc a : R) :
  a <= Rabs (vz z) ->
  2 * a - fold_offset u <= vx (fst (fold_step_notrap u warp (z, sc)))
  /\ snd (fold_step_notrap u warp (z, sc)) = sc * 2.
Proof.
  intro Ha. destruct z as [zx zy zz].
  unfold fold_step_notrap, fold_offset, vabs, vsubs, vscale, map3 in *.
  simpl in *. split; [| reflexivity].
  rcases.
Qed.

Lemma fold_step_grows_x (u : Uniforms) (warp : R) (z : vec3f) (sc a : R) :
  a <= vx z ->
  2 * a - fold_offset u <= vx (fst (fold_step_notrap u warp (z, sc)))
  /\ snd (fold_step_notrap u warp (z, sc)) = sc * 2.
Proof.
  intro Ha. destruct z as [zx zy zz].
  unfold fold_step_notrap, fold_offset, vabs, vsubs, vscale, map3 in *.
  simpl in *. split; [| reflexivity].
  rcases.
Qed.

(** Far from the origin along the third axis the fractal is far away. *)
Lemma sdFractal_lower (u : Uniforms) (p : vec3f) (a : R) :
  time u = 0 ->
  a <= Rabs (vz p) ->
  (16 * a - 15 * fold_offset u - 2.5) / 16 <= sdFractal u p.
Proof.
  intros Ht Ha. rewrite (sdFractal_at_rest u p Ht). cbv zeta.
  set (w := wy (audio u) * 0.2).
  simpl fold_loop_notrap.
  destruct (fold_step_grows u w p 1 a Ha) as [H1 S1].
  destruct (fold_step_notrap u w (p, 1)) as [z1 s1]. simpl in H1, S1.
  destruct (fold_step_grows_x u w z1 s1 _ H1) as [H2 S2].
  destruct (fold_step_notrap u w (z1, s1)) as [z2 s2]. simpl in H2, S2.
  destruct (fold_step_grows_x u w z2 s2 _ H2) as [H3 S3].
  destruct (fold_step_notrap u w (z2, s2)) as [z3 s3]. simpl in H3, S3.
  destruct (fold_step_grows_x u w z3 s3 _ H3) as [H4 S4].
  destruct (fold_step_notrap u w (z3, s3)) as [z4 s4]. simpl in H4, S4.
  simpl fst. simpl snd.
  assert (Hs : s4 = 16) by lra. rewrite Hs.
  pose proof (length_ge_vx z4) as Hl.
  eapply Rle_trans; [| apply Rmax_r].
  unfold Rdiv. apply Rmult_le_compat_r; lra.
Qed.

(** *** Exact folds, with no audio warp *)

Lemma fold_axis_first (u : Uniforms) (s sc : R) :
  0 <= s ->
  fold_step_notrap u 0 (vec3 0 0 s, sc)
  = (vec3 (2 * s - fold_offset u) (- fold_offset u) (- fold_offset u),
     sc * 2).
Proof.
  intro Hs.
  unfold fold_step_notrap, fold_offset, vabs, vsubs, vscale, map3.
  simpl. rcases; f_equal; f_equal; lra.
Qed.

Lemma fold_sorted (u : Uniforms) (X Y sc : R) :
  Rabs Y <= Rabs X ->
  fold_step_notrap u 0 (vec3 X Y Y, sc)
  = (vec3 (2 * Rabs X - fold_offset u) (2 * Rabs Y - fold_offset u)
          (2 * Rabs Y - fold_offset u),
     sc * 2).
Proof.
  intro H.
  unfold fold_step_notrap, fold_offset, vabs, vsubs, vscale, map3.
  simpl. rcases; f_equal; f_equal; lra.
Qed.

(** Four folds of a point [(0,0,s)] of the third axis, for the default
    [detail], whose offset is [0.81]. *)
Lemma fold_loop_axis (u : Uniforms) (s : R) :
  detail u = 0.35 ->
  0.81 <= s ->
  fold_loop_notrap u 4 0 (vec3 0 0 s, 1)
  = (vec3 (16 * s - 12.15) 0.81 0.81, 16).
Proof.
  intros Hd Hs.
  assert (Hc : fold_offset u = 0.81) by (unfold fold_offset; rewrite Hd; lra).
  simpl fold_loop_notrap.
  rewrite fold_axis_first by lra. rewrite Hc.
  rewrite fold_sorted by rcases. rewrite Hc.
  replace (2 * Rabs (2 * s - 0.81) - 0.81) with (4 * s - 2.43) by rcases.
  rewrite fold_sorted by rcases. rewrite Hc.
  replace (2 * Rabs (4 * s - 2.43) - 0.81) with (8 * s - 5.67) by rcases.
  rewrite fold_sorted by rcases. rewrite Hc.
  replace (2 * Rabs (8 * s - 5.67) - 0.81) with (16 * s - 12.15) by rcases.
  f_equal; [f_equal |]; rcases.
Qed.

Lemma sdBox_ridge (X : R) :
  1.2 <= X ->
  sdBox (vec3 X 0.81 0.81) (vec3 1.2 1.2 4) = X - 1.2.
Proof.
  intro HX.
  unfold sdBox, length, dot, vmax, vsub, vabs, splat, zip3, map3. simpl.
  replace (Rabs X - 1.2) with (X - 1.2) by rcases.
  replace (Rabs 0.81 - 1.2) with (- 0.39) by rcases.
  replace (Rabs 0.81 - 4) with (- 3.19) by rcases.
  replace (Rmax (X - 1.2) 0) with (X - 1.2) by rcases.
  replace (Rmax (- 0.39) 0) with 0 by rcases.
  replace (Rmax (- 3.19) 0) with 0 by rcases.
  replace ((X - 1.2) * (X - 1.2) + 0 * 0 + 0 * 0)
    with ((X - 1.2) * (X - 1.2)) by ring.
  rewrite sqrt_square by lra.
  rcases.
Qed.

Lemma length_ridge (X : R) :
  0 <= X -> length (vec3 X 0.81 0.81) <= X + 1.3.
Proof.
  intro HX. unfold length, dot. simpl.
  rewrite <- (sqrt_square (X + 1.3)) by lra.
  apply sqrt_le_1_alt. nra.
Qed.

(** On the third axis, outside the box, the fractal distance is the
    distance to the box face. *)
Lemma sdFractal_axis (u : Uniforms) (s : R) :
  time u = 0 -> detail u = 0.35 -> wy (audio u) = 0 ->
  0.834375 <= s ->
  sdFractal u (vec3 0 0 s) = s - 0.834375.
Proof.
  intros Ht Hd Ha Hs.
  rewrite (sdFractal_at_rest u _ Ht). cbv zeta.
  rewrite Ha. replace (0 * 0.2) with 0 by ring.
  rewrite (fold_loop_axis u s Hd) by lra. simpl fst. simpl snd.
  rewrite sdBox_ridge by lra.
  pose proof (length_ridge (16 * s - 12.15)) as Hl.
  rewrite Rmax_left; lra.
Qed.

(** At the origin the fractal distance is negative: the origin is inside
    the box. *)
Lemma sdFractal_origin (u : Uniforms) :
  time u = 0 -> detail u = 0.35 -> wy (audio u) = 0 ->
  sdFractal u (vec3 0 0 0) = - 0.024375.
Proof.
  intros Ht Hd Ha.
  assert (Hc : fold_offset u = 0.81) by (unfold fold_offset; rewrite Hd; lra).
  rewrite (sdFractal_at_rest u _ Ht). cbv zeta.
  rewrite Ha. replace (0 * 0.2) with 0 by ring.
  simpl fold_loop_notrap.
  rewrite fold_axis_first by lra. rewrite Hc.
  do 3 (rewrite fold_sorted by rcases; rewrite Hc;
        repeat match goal with
        | |- context [2 * Rabs ?a - 0.81] =>
            replace (2 * Rabs a - 0.81) with 0.81 by rcases
        end).
  simpl fst. simpl snd.
  assert (Hbox : sdBox (vec3 0.81 0.81 0.81) (vec3 1.2 1.2 4) = - 0.39).
  { unfold sdBox, length, dot, vmax, vsub, vabs, splat, zip3, map3. simpl.
    replace (Rabs 0.81 - 1.2) with (- 0.39) by rcases.
    replace (Rabs 0.81 - 4) with (- 3.19) by rcases.
    replace (Rmax (- 0.39) 0) with 0 by rcases.
    replace (Rmax (- 3.19) 0) with 0 by rcases.
    replace (0 * 0 + 0 * 0 + 0 * 0) with 0 by ring.
    rewrite sqrt_0. rcases. }
  rewrite Hbox.
  assert (Hlen : length (vec3 0.81 0.81 0.81) <= 2.11).
  { unfold length, dot. simpl.
    rewrite <- (sqrt_square 2.11) by lra.
    apply sqrt_le_1_alt. lra. }
  rewrite Rmax_left; lra.
Qed.

(** ** The scene field and the raymarcher on two rays *)

Lemma raymarch_loop_S (u : Uniforms) (n : nat) (ro rd : vec3f)
    (st : MarchState) :
  raymarch_loop u (S n) ro rd st =
    let h := map u (ro +v rd *s mt st) in
    if x2 h <? EPSILON then mkMarch (mt st) (y2 h) true
    else if mt st >? 30 then st
    else raymarch_loop u n ro rd
           (mkMarch (mt st + x2 h * 0.7) (mm st) (mhit st)).
Proof. reflexivity. Qed.

(** *** The ray that goes straight up from [(0,0,20)] *)

Lemma map_above (u : Uniforms) (t : R) :
  time u = 0 -> detail u = 0.35 -> 0 <= t ->
  2.2 <= x2 (map u (vec3 0 0 20 +v vec3 0 1 0 *s t)).
Proof.
  intros Ht Hd Hpos.
  set (p := vec3 0 0 20 +v vec3 0 1 0 *s t).
  assert (Hc : fold_offset u = 0.81) by (unfold fold_offset; rewrite Hd; lra).
  assert (Hz : 20 <= Rabs (vz p)).
  { unfold p. simpl. rcases. }
  pose proof (sdFractal_lower u p 20 Ht Hz) as Hf. rewrite Hc in Hf.
  assert (Hy : vy p = t) by (unfold p; simpl; ring).
  unfold map. cbv zeta. rewrite Hy.
  unfold ltb. destruct (Rlt_dec _ _); simpl; lra.
Qed.

Lemma raymarch_loop_above (u : Uniforms) (n : nat) :
  time u = 0 -> detail u = 0.35 ->
  forall t m : R,
    0 <= t -> 30 < t + 1.54 * INR n ->
    exists t',
      raymarch_loop u n (vec3 0 0 20) (vec3 0 1 0) (mkMarch t m false)
      = mkMarch t' m false /\ 30 < t'.
Proof.
  intros Ht Hd. induction n as [| n IH]; intros t m Hpos Hfar.
  - exists t. simpl in *. split; [reflexivity | lra].
  - rewrite raymarch_loop_S. cbv zeta. simpl mt. simpl mm. simpl mhit.
    pose proof (map_above u t Ht Hd Hpos) as Hh.
    rewrite ltb_ge by (unfold EPSILON; lra).
    destruct (Rlt_dec 30 t) as [Hgt | Hle].
    + rewrite gtb_gt by assumption. exists t. split; [reflexivity | lra].
    + rewrite gtb_le by lra.
      apply IH; [lra |]. rewrite S_INR in Hfar. lra.
Qed.

(** *** The ray that goes from [(0,0,20)] towards the origin *)

Lemma axis_pos (t : R) :
  vec3 0 0 20 +v vec3 0 0 (- 1) *s t = vec3 0 0 (20 - t).
Proof. unfold vadd, vscale, zip3, map3. simpl. f_equal; ring. Qed.

Lemma map_axis (u : Uniforms) (s : R) :
  time u = 0 -> detail u = 0.35 -> wy (audio u) = 0 ->
  0.834375 <= s ->
  map u (vec3 0 0 s) =
    if s - 0.844375 <? 2.2 then vec2 (s - 0.844375) Fractal
    else vec2 2.2 Floor.
Proof.
  intros Ht Hd Ha Hs. unfold map. cbv zeta.
  rewrite (sdFractal_axis u s Ht Hd Ha Hs). simpl vy.
  replace (s - 0.834375 - 0.01) with (s - 0.844375) by lra.
  replace (0 - -2.2) with 2.2 by lra.
  reflexivity.
Qed.

Section TowardsOrigin.

Variable u : Uniforms.
Hypothesis Ht : time u = 0.
Hypothesis Hd : detail u = 0.35.
Hypothesis Ha : wy (audio u) = 0.

Let ro := vec3 0 0 20.
Let rd := vec3 0 0 (- 1).

(** Within [2.2] of the surface every step removes seven tenths of the
    remaining distance. *)
Lemma raymarch_loop_near (n : nat) :
  forall (fuel : nat) (t m : R),
    (n < fuel)%nat ->
    0 < axis_hit - t < 2.2 ->
    axis_hit - t < 0.0001 * (10 / 3) ^ n ->
    exists t',
      raymarch_loop u fuel ro rd (mkMarch t m false)
      = mkMarch t' Fractal true /\ t <= t' < axis_hit.
Proof.
  unfold axis_hit.
  induction n as [| n IH]; intros fuel t m Hfuel Hd0 Hdn;
    (destruct fuel as [| fuel]; [lia |]);
    rewrite raymarch_loop_S; cbv zeta; simpl mt; simpl mm; simpl mhit;
    unfold ro, rd; rewrite axis_pos;
    rewrite (map_axis u (20 - t) Ht Hd Ha) by lra;
    rewrite (ltb_lt (20 - t - 0.844375) 2.2) by lra; simpl x2; simpl y2.
  - simpl in Hdn. rewrite ltb_lt by (unfold EPSILON; lra).
    exists t. split; [reflexivity | lra].
  - destruct (Rlt_dec (20 - t - 0.844375) EPSILON) as [Hhit | Hno].
    + rewrite ltb_lt by assumption.
      exists t. split; [reflexivity | lra].
    + rewrite ltb_ge by lra. rewrite gtb_le by lra.
      unfold EPSILON in Hno. simpl in Hdn.
      destruct (IH fuel (t + (20 - t - 0.844375) * 0.7) m) as [t' [E Ht']];
        [lia | lra | lra |].
      exists t'. split; [exact E | lra].
Qed.

(** Farther away the floor is the nearer surface and every step is
    [2.2 * 0.7] long. *)
Lemma raymarch_loop_far (k : nat) :
  forall (fuel : nat) (t m : R),
    (k + 10 < fuel)%nat ->
    0 <= t ->
    0 < axis_hit - t < 2.2 + 1.54 * INR k ->
    exists t',
      raymarch_loop u fuel ro rd (mkMarch t m false)
      = mkMarch t' Fractal true /\ t <= t' < axis_hit.
Proof.
  assert (Hpow : 2.2 <= 0.0001 * (10 / 3) ^ 10) by (simpl; lra).
  induction k as [| k IH]; intros fuel t m Hfuel Hpos Hd0.
  - simpl in Hd0. apply (raymarch_loop_near 10); [lia | lra | lra].
  - destruct (Rlt_dec (axis_hit - t) 2.2) as [Hnear | Hfar].
    + apply (raymarch_loop_near 10); [lia | lra | lra].
    + destruct fuel as [| fuel]; [lia |].
      unfold axis_hit in *. rewrite S_INR in Hd0.
      rewrite raymarch_loop_S. cbv zeta. simpl mt. simpl mm. simpl mhit.
      unfold ro, rd. rewrite axis_pos.
      rewrite (map_axis u (20 - t) Ht Hd Ha) by lra.
      rewrite (ltb_ge (20 - t - 0.844375) 2.2) by lra. simpl x2.
      rewrite ltb_ge by (unfold EPSILON; lra). rewrite gtb_le by lra.
      destruct (IH fuel (t + 2.2 * 0.7) m) as [t' [E Ht']];
        [lia | lra | lra |].
      exists t'. split; [exact E | lra].
Qed.

End TowardsOrigin.

Lemma raymarch_towards_origin (u : Uniforms) :
  time u = 0 -> detail u = 0.35 -> wy (audio u) = 0 ->
  exists t,
    raymarch u (vec3 0 0 20) (vec3 0 0 (- 1)) = vec3 t Fractal 1
    /\ 0 <= t < axis_hit.
Proof.
  intros Ht Hd Ha. unfold raymarch. cbv zeta.
  destruct (raymarch_loop_far u Ht Hd Ha 12 160 0 (- 1)) as [t [E Hr]].
  - lia.
  - lra.
  - unfold axis_hit. simpl. lra.
  - rewrite E. simpl. exists t. split; [reflexivity | exact Hr].
Qed.

Lemma raymarch_upwards (u : Uniforms) :
  time u = 0 -> detail u = 0.35 ->
  exists t,
    raymarch u (vec3 0 0 20) (vec3 0 1 0) = vec3 t (- 1) 0 /\ 30 < t.
Proof.
  intros Ht Hd. unfold raymarch. cbv zeta.
  destruct (raymarch_loop_above u 160 Ht Hd 0 (- 1)) as [t [E Hr]].
  - lra.
  - rewrite INR_IZR_INZ. simpl. lra.
  - rewrite E. simpl. exists t. split; [reflexivity | exact Hr].
Qed.

(** ** Raymarch termination *)

(** C1, as the code has it: with the default parameters at time 0 the
    ray from (0,0,20) along (0,0,-1) returns the hit flag 1 with a
    distance below 30 (it stops on the fractal), and the ray from
    (0,0,20) along (0,1,0) returns the hit flag 0 with a distance
    strictly above the far bound 30: the loop leaves only once [t] has
    exceeded 30 and returns that [t]. *)
Theorem raymarch_termination :
  let ro := vec3 0 0 20 in
  (vz (raymarch default_uniforms ro (vec3 0 0 (- 1))) = 1
   /\ vx (raymarch default_uniforms ro (vec3 0 0 (- 1))) < 30)
  /\ (vz (raymarch default_uniforms ro (vec3 0 1 0)) = 0
      /\ 30 < vx (raymarch default_uniforms ro (vec3 0 1 0))).
Proof.
  cbv zeta. split.
  - destruct (raymarch_towards_origin default_uniforms) as [t [E Hr]];
      try reflexivity.
    rewrite E. simpl. unfold axis_hit in Hr. split; [reflexivity | lra].
  - destruct (raymarch_upwards default_uniforms) as [t [E Hr]];
      try reflexivity.
    rewrite E. simpl. split; [reflexivity | exact Hr].
Qed.

(** C1 as stated fails: the distance returned for the ray that misses
    is not the far bound 30. *)
Lemma raymarch_miss_not_far_bound :
  ~ (vz (raymarch default_uniforms (vec3 0 0 20) (vec3 0 1 0)) = 0
     /\ vx (raymarch default_uniforms (vec3 0 0 20) (vec3 0 1 0)) = 30).
Proof.
  destruct (raymarch_upwards default_uniforms) as [t [E Hr]];
    try reflexivity.
  rewrite E. simpl. intros [_ H]. lra.
Qed.

(** ** Material tie-break *)

Lemma map_far (u : Uniforms) (p : vec3f) :
  time u = 0 -> detail u = 0.35 ->
  10 <= Rabs (vz p) ->
  0.01 + 0.0001 <= sdFractal u p - 0.01.
Proof.
  intros Ht Hd Hz.
  assert (Hc : fold_offset u = 0.81) by (unfold fold_offset; rewrite Hd; lra).
  pose proof (sdFractal_lower u p 10 Ht Hz) as Hf. rewrite Hc in Hf. lra.
Qed.

(** C2: at every sample point [map] reports Fractal exactly when the
    biased fractal distance [sdFractal p - 0.01] is strictly below the
    floor distance [p.y + 2.2], and Floor otherwise; with the default
    parameters at time 0 it reports Fractal at (0,0,0) and Floor at
    (10,-2.2,10). *)
Theorem map_material_tie_break :
  (forall (u : Uniforms) (p : vec3f),
     (y2 (map u p) = Fractal <-> sdFractal u p - 0.01 < vy p + 2.2)
     /\ (y2 (map u p) = Floor <-> ~ sdFractal u p - 0.01 < vy p + 2.2))
  /\ y2 (map default_uniforms (vec3 0 0 0)) = Fractal
  /\ y2 (map default_uniforms (vec3 10 (- 2.2) 10)) = Floor.
Proof.
  assert (Hgen : forall (u : Uniforms) (p : vec3f),
     (y2 (map u p) = Fractal <-> sdFractal u p - 0.01 < vy p + 2.2)
     /\ (y2 (map u p) = Floor <-> ~ sdFractal u p - 0.01 < vy p + 2.2)).
  { intros u p. unfold map, Fractal, Floor. cbv zeta.
    replace (vy p - -2.2) with (vy p + 2.2) by lra.
    unfold ltb. destruct (Rlt_dec _ _) as [H | H]; simpl;
      split; split; intro H';
      try reflexivity; try assumption; try lra; contradiction. }
  split; [exact Hgen |]. split.
  - apply Hgen.
    rewrite (sdFractal_origin default_uniforms) by reflexivity.
    simpl. lra.
  - apply Hgen.
    pose proof (map_far default_uniforms (vec3 10 (- 2.2) 10)) as Hf.
    simpl in Hf. intro Hlt.
    assert (0.01 + 0.0001 <=
            sdFractal default_uniforms (vec3 10 (- 2.2) 10) - 0.01).
    { apply Hf; try reflexivity. rcases. }
    simpl in Hlt. lra.
Qed.

Lemma map_material_tie_break_witness :
  y2 (map default_uniforms (vec3 0 0 20)) = Floor.
Proof.
  apply (proj1 map_material_tie_break default_uniforms (vec3 0 0 20)).
  rewrite (sdFractal_axis default_uniforms 20) by (try reflexivity; lra).
  simpl. lra.
Defined.

(** ** Powers *)

Lemma wpow_zero_exponent (x : R) : wpow x 0 = 1.
Proof.
  unfold wpow. destruct (Req_dec_T 0 0) as [_ | H]; [reflexivity |].
  exfalso. apply H. reflexivity.
Qed.

Lemma wpow_one_base (y : R) : wpow 1 y = 1.
Proof.
  unfold wpow. destruct (Req_dec_T y 0); [reflexivity |].
  destruct (Rlt_dec 0 1); [| lra].
  unfold Rpower. rewrite ln_1, Rmult_0_r. apply exp_0.
Qed.

Lemma wpow_zero_base (y : R) : y <> 0 -> wpow 0 y = 0.
Proof.
  intro Hy. unfold wpow. destruct (Req_dec_T y 0); [contradiction |].
  destruct (Rlt_dec 0 0); [lra | reflexivity].
Qed.

Lemma wpow_nonneg (x y : R) : 0 <= wpow x y.
Proof.
  unfold wpow. destruct (Req_dec_T y 0); [lra |].
  destruct (Rlt_dec 0 x); [| lra].
  left. apply exp_pos.
Qed.

Lemma wpow_mono (a b y : R) :
  0 < y -> 0 <= a <= b -> wpow a y <= wpow b y.
Proof.
  intros Hy [Ha Hab]. unfold wpow.
  destruct (Req_dec_T y 0); [lra |].
  destruct (Rlt_dec 0 a) as [Hpa | Hna].
  - destruct (Rlt_dec 0 b); [| lra].
    apply Rle_Rpower_l; lra.
  - destruct (Rlt_dec 0 b); [| lra].
    left. apply exp_pos.
Qed.

Lemma wpow_unit_range (x y : R) :
  0 < y -> 0 <= x <= 1 -> 0 <= wpow x y <= 1.
Proof.
  intros Hy Hx. split; [apply wpow_nonneg |].
  rewrite <- (wpow_one_base y). apply wpow_mono; lra.
Qed.

(** ** Clamped ranges *)

Lemma tonemap_channel_range (c : R) : 0 <= tonemap_channel c <= 1.
Proof.
  unfold tonemap_channel. cbv zeta.
  apply wpow_unit_range; [lra |].
  apply clamp_range. lra.
Qed.

Lemma getShadow_range (u : Uniforms) (ro rd : vec3f) (tmin tmax k : R) :
  0 <= getShadow u ro rd tmin tmax k <= 1.
Proof. unfold getShadow. cbv zeta. apply clamp_range. lra. Qed.

Lemma getAO_range (u : Uniforms) (p n : vec3f) :
  - 1 <= vy n <= 1 -> 0 <= getAO u p n <= 1.
Proof.
  intro Hn. unfold getAO. cbv zeta.
  pose proof (clamp_range (1 - 3 * getAO_loop u 5 0 p n 0 1) 0 1 Rle_0_1)
    as Hc.
  set (c := clamp _ 0 1) in *. nra.
Qed.

(** Where every probe is farther from all geometry than its height, the
    occlusion sum does not grow. *)
Lemma getAO_loop_open (u : Uniforms) (p nrm : vec3f) :
  (forall h : R, 0 <= h -> 2.2 <= x2 (map u (p +v nrm *s h))) ->
  forall (n i : nat) (occ sca : R),
    (i + n <= 5)%nat -> 0 <= sca ->
    getAO_loop u n i p nrm occ sca <= occ.
Proof.
  intro Hopen. induction n as [| n IH]; intros i occ sca Hi Hsca; simpl.
  - lra.
  - assert (Hi5 : (i <= 5)%nat) by lia.
    apply le_INR in Hi5. replace (INR 5) with 5 in Hi5 by (simpl; lra).
    pose proof (pos_INR i) as Hi0.
    set (h := 0.01 + 0.12 * INR i / 4).
    assert (Hh : 0 <= h <= 0.16) by (unfold h; lra).
    pose proof (Hopen h (proj1 Hh)) as Hd.
    eapply Rle_trans; [apply IH; [lia | lra] |].
    assert (0 <= (x2 (map u (p +v nrm *s h)) - h) * sca)
      by (apply Rmult_le_pos; lra).
    lra.
Qed.

(** A normal of length 3 at a point in the open: [getAO] is 2. *)
Lemma getAO_long_normal :
  getAO default_uniforms (vec3 0 0 20) (vec3 0 3 0) = 2.
Proof.
  unfold getAO. cbv zeta.
  assert (Hocc : getAO_loop default_uniforms 5 0 (vec3 0 0 20) (vec3 0 3 0)
                   0 1 <= 0).
  { apply getAO_loop_open; [| lia | lra].
    intros h Hh.
    replace (vec3 0 0 20 +v vec3 0 3 0 *s h)
      with (vec3 0 0 20 +v vec3 0 1 0 *s (3 * h))
      by (unfold vadd, vscale, zip3, map3; simpl; f_equal; ring).
    apply map_above; try reflexivity. lra. }
  set (occ := getAO_loop _ _ _ _ _ _ _) in *.
  replace (clamp (1 - 3 * occ) 0 1) with 1 by rcases.
  simpl. lra.
Qed.

(** C3, as the code has it: [getAO] lies in [0,1] for every point and
    every normal whose second component lies in [-1,1] (every unit
    normal, which is what [calcNormal] hands it); [getShadow] lies in
    [0,1] for all inputs; every colour channel returned by [fs_main]
    lies in [0,1]. *)
Theorem clamped_ranges :
  (forall (u : Uniforms) (p n : vec3f),
     - 1 <= vy n <= 1 -> 0 <= getAO u p n <= 1)
  /\ (forall (u : Uniforms) (ro rd : vec3f) (tmin tmax k : R),
        0 <= getShadow u ro rd tmin tmax k <= 1)
  /\ (forall (u : Uniforms) (uv : vec2f),
        0 <= wx (fs_main u uv) <= 1
        /\ 0 <= wy (fs_main u uv) <= 1
        /\ 0 <= wz (fs_main u uv) <= 1).
Proof.
  split; [exact getAO_range |]. split; [exact getShadow_range |].
  intros u uv. unfold fs_main. cbv zeta. unfold tonemap, vec4_of, map3.
  simpl. repeat split; apply tonemap_channel_range.
Qed.

Lemma clamped_ranges_witness :
  0 <= getAO default_uniforms (vec3 0 0 0) (vec3 0 1 0) <= 1.
Proof.
  apply (proj1 clamped_ranges default_uniforms (vec3 0 0 0) (vec3 0 1 0)).
  simpl. lra.
Defined.

(** C3 as stated fails: for a normal that is not of unit length the
    result of [getAO] leaves [0,1]. *)
Lemma getAO_out_of_range :
  ~ (0 <= getAO default_uniforms (vec3 0 0 20) (vec3 0 3 0) <= 1).
Proof. rewrite getAO_long_normal. lra. Qed.

(** ** Vignette *)

Lemma vignette_base_range (q : vec2f) :
  0 <= x2 q <= 1 -> 0 <= y2 q <= 1 -> 0 <= vignette_base q <= 1.
Proof.
  intros Hx Hy. unfold vignette_base.
  set (a := x2 q * (1 - x2 q)). set (b := y2 q * (1 - y2 q)).
  pose proof (Rle_0_sqr (x2 q - 0.5)) as Hqx. unfold Rsqr in Hqx.
  pose proof (Rle_0_sqr (y2 q - 0.5)) as Hqy. unfold Rsqr in Hqy.
  assert (Ha : 0 <= a <= 0.25) by (unfold a; nra).
  assert (Hb : 0 <= b <= 0.25) by (unfold b; nra).
  replace (16 * x2 q * y2 q * (1 - x2 q) * (1 - y2 q)) with (16 * (a * b))
    by (unfold a, b; ring).
  nra.
Qed.

(** C4: for every UV of the unit square the vignette multiplier is
    exactly 1 when the vignette exponent is 0; the interior term
    16*u*v*(1-u)*(1-v) is at most 1 on the unit square and equals 1 at
    UV = (0.5, 0.5), where the multiplier is exactly 1 for every
    exponent. *)
Theorem vignette_identity :
  (forall (u : Uniforms) (q : vec2f),
     0 <= x2 q <= 1 -> 0 <= y2 q <= 1 ->
     vignette u = 0 -> vignette_factor u q = 1)
  /\ (forall q : vec2f,
        0 <= x2 q <= 1 -> 0 <= y2 q <= 1 -> vignette_base q <= 1)
  /\ vignette_base (vec2 0.5 0.5) = 1
  /\ (forall u : Uniforms, vignette_factor u (vec2 0.5 0.5) = 1).
Proof.
  assert (Hc : vignette_base (vec2 0.5 0.5) = 1)
    by (unfold vignette_base; simpl; lra).
  repeat split.
  - intros u q _ _ Hv. unfold vignette_factor.
    rewrite Hv, wpow_zero_exponent. lra.
  - intros q Hx Hy. apply vignette_base_range; assumption.
  - exact Hc.
  - intro u. unfold vignette_factor. rewrite Hc, wpow_one_base. lra.
Qed.

(** ** Tone map *)

Lemma div_le_cross (a b c d : R) :
  0 < b -> 0 < d -> a * d <= c * b -> a / b <= c / d.
Proof.
  intros Hb Hd H.
  replace (a / b) with (a * d * / (b * d)) by (field; lra).
  replace (c / d) with (c * b * / (b * d)) by (field; lra).
  apply Rmult_le_compat_r; [| exact H].
  left. apply Rinv_0_lt_compat. nra.
Qed.

Lemma aces_mono (x y : R) : 0 <= x <= y -> aces x <= aces y.
Proof.
  intros [Hx Hxy]. unfold aces. cbv zeta.
  assert (Hxx : 0 <= x * x) by nra.
  assert (Hyy : 0 <= y * y) by nra.
  assert (Hp : 0 <= x * y) by nra.
  apply div_le_cross; [nra | nra |].
  assert (Hdiff :
    y * (2.51 * y + 0.03) * (x * (2.43 * x + 0.59) + 0.14)
    - x * (2.51 * x + 0.03) * (y * (2.43 * y + 0.59) + 0.14)
    = (y - x) * (1.408 * (x * y) + 0.3514 * (x + y) + 0.0042)) by lra.
  assert (0 <= (y - x) * (1.408 * (x * y) + 0.3514 * (x + y) + 0.0042))
    by (apply Rmult_le_pos; lra).
  lra.
Qed.

Lemma aces_zero : aces 0 = 0.
Proof. unfold aces. cbv zeta. unfold Rdiv. ring. Qed.

Lemma tonemap_channel_mono (x y : R) :
  0 <= x <= y -> tonemap_channel x <= tonemap_channel y.
Proof.
  intro H. unfold tonemap_channel. cbv zeta.
  apply wpow_mono; [lra |]. split.
  - apply clamp_range. lra.
  - apply clamp_mono. apply aces_mono. lra.
Qed.


Lemma vignette_identity_witness :
  vignette_factor (set_vignette 0 default_uniforms) (vec2 0.25 0.75) = 1.
Proof.
  apply (proj1 vignette_identity); simpl; lra.
Defined.


(** ** The electricity pass *)

Lemma vadd_zero_r (a : vec3f) : a +v splat 0 = a.
Proof.
  destruct a. unfold vadd, splat, zip3. simpl. f_equal; ring.
Qed.

Lemma glow_term_off (u : Uniforms) (pos : vec3f) (geoD tParams : R) :
  electricIntensity u = 0 -> glow_term u pos geoD tParams = splat 0.
Proof.
  intro H. unfold glow_term. cbv zeta. rewrite H.
  unfold vscale, splat, map3. simpl. f_equal; ring.
Qed.

Lemma getGlow_loop_off (u : Uniforms) (ro rd : vec3f) (tParams tEnd : R) :
  electricIntensity u = 0 ->
  forall (n : nat) (t : R),
    getGlow_loop u n ro rd tParams tEnd (splat 0) t = splat 0.
Proof.
  intros H n. induction n as [| n IH]; intro t; simpl.
  - reflexivity.
  - destruct (t >? tEnd); [reflexivity |].
    destruct (_ <? 0.4).
    + rewrite glow_term_off by assumption. rewrite vadd_zero_r. apply IH.
    + apply IH.
Qed.

Lemma glow_sample_S (u : Uniforms) (rd : vec3f) (k : nat) :
  glow_sample u rd k + 0.15 = glow_sample u rd (S k).
Proof. unfold glow_sample. rewrite S_INR. lra. Qed.

(** No sample within [0.4] of the fractal: the accumulator is left as it
    is. *)
Lemma getGlow_loop_gated (u : Uniforms) (ro rd : vec3f) (tParams tEnd : R) :
  (forall k : nat,
     (k < 35)%nat -> glow_sample u rd k <= tEnd ->
     0.4 <= sdFractal u (ro +v rd *s glow_sample u rd k)) ->
  forall (n k : nat) (acc : vec3f),
    (k + n <= 35)%nat ->
    getGlow_loop u n ro rd tParams tEnd acc (glow_sample u rd k) = acc.
Proof.
  intros Hfar n. induction n as [| n IH]; intros k acc Hk; simpl.
  - reflexivity.
  - destruct (Rlt_dec tEnd (glow_sample u rd k)) as [Hend | Hin].
    + rewrite gtb_gt by assumption. reflexivity.
    + rewrite gtb_le by lra.
      rewrite ltb_ge by (apply Hfar; [lia | lra]).
      rewrite glow_sample_S. apply IH. lia.
Qed.

Lemma getGlow_gated (u : Uniforms) (ro rd : vec3f) (maxT : R) :
  (forall k : nat,
     (k < 35)%nat -> glow_sample u rd k <= Rmin maxT 15 ->
     0.4 <= sdFractal u (ro +v rd *s glow_sample u rd k)) ->
  getGlow u ro rd maxT = splat 0.
Proof.
  intro Hfar. unfold getGlow. cbv zeta.
  replace (0.5 + hash (rd *s time u) * 0.2) with (glow_sample u rd 0)
    by (unfold glow_sample; simpl; lra).
  apply getGlow_loop_gated; [exact Hfar | lia].
Qed.

(** C6: with [electricIntensity = 0] the colour of a sample is the
    colour computed without the electricity pass, and the pass itself
    computes exactly zero; and when every marched sample point of a ray
    is at fractal distance at least 0.4, [getGlow] returns the zero
    colour. *)
Theorem volumetric_gating :
  (forall u : Uniforms,
     electricIntensity u = 0 ->
     (forall (aaSamples i : nat) (uv : vec2f) (ro uu vv ww : vec3f),
        sample_color u aaSamples i uv ro uu vv ww =
          let rd := sample_ray u aaSamples i uv uu vv ww in
          shade_sample u ro rd (raymarch u ro rd))
     /\ (forall (ro rd : vec3f) (maxT : R),
           getGlow u ro rd maxT = splat 0))
  /\ (forall (u : Uniforms) (ro rd : vec3f) (maxT : R),
        (forall k : nat,
           (k < 35)%nat -> glow_sample u rd k <= Rmin maxT 15 ->
           0.4 <= sdFractal u (ro +v rd *s glow_sample u rd k)) ->
        getGlow u ro rd maxT = splat 0).
Proof.
  split.
  - intros u H. split.
    + intros. unfold sample_color, add_glow. cbv zeta.
      rewrite H. rewrite gtb_le by lra. reflexivity.
    + intros. unfold getGlow. cbv zeta. apply getGlow_loop_off. exact H.
  - exact getGlow_gated.
Qed.

Lemma volumetric_gating_witness :
  (forall (ro rd : vec3f) (maxT : R),
     getGlow quiet_uniforms ro rd maxT = splat 0)
  /\ getGlow default_uniforms (vec3 0 0 20) (vec3 0 1 0) 30 = splat 0.
Proof.
  split.
  - apply (proj1 volumetric_gating quiet_uniforms). reflexivity.
  - apply (proj2 volumetric_gating).
    intros k _ _.
    assert (Hc : fold_offset default_uniforms = 0.81)
      by (unfold fold_offset; simpl; lra).
    pose proof (sdFractal_lower default_uniforms
      (vec3 0 0 20 +v vec3 0 1 0 *s glow_sample default_uniforms
                                     (vec3 0 1 0) k) 20 eq_refl) as Hf.
    rewrite Hc in Hf.
    assert (Hz : 20 <= Rabs (vz (vec3 0 0 20 +v vec3 0 1 0
                 *s glow_sample default_uniforms (vec3 0 1 0) k)))
      by (simpl; rcases).
    specialize (Hf Hz). lra.
Defined.

(** ** The electricity pass only brightens *)

Lemma glow_term_nonneg (u : Uniforms) (pos : vec3f) (geoD tParams : R) :
  0 <= electricIntensity u -> nonneg3 (xyz (electricColor u)) ->
  nonneg3 (glow_term u pos geoD tParams).
Proof.
  intros He [Hr [Hg Hb]]. unfold glow_term. cbv zeta.
  set (d := Rabs _).
  assert (Hd : 0 <= d) by apply Rabs_pos.
  set (intensity := 0.0003 / (d * d * d + 0.000001)).
  assert (Hi : 0 <= intensity).
  { unfold intensity, Rdiv. apply Rmult_le_pos; [lra |].
    left. apply Rinv_0_lt_compat.
    assert (0 <= d * d * d) by (repeat apply Rmult_le_pos; assumption).
    lra. }
  pose proof (smoothstep_range 5 60 intensity) as Hheat.
  set (heat := smoothstep 5 60 intensity) in *.
  pose proof (smoothstep_range 0.3 0 geoD) as Hfade.
  set (fade := smoothstep 0.3 0 geoD) in *.
  match goal with
  | |- context [smoothstep 0.35 0.55 ?x] =>
      pose proof (smoothstep_range 0.35 0.55 x) as Hmask;
      set (mask := smoothstep 0.35 0.55 x) in *
  end.
  clearbody mask fade heat intensity. simpl in Hr, Hg, Hb.
  assert (Hmix : forall c : R, 0 <= c -> 0 <= mix c 1 heat)
    by (intros c Hc0; unfold mix; nra).
  unfold nonneg3, vmix, vscale, zip3, map3. cbn [vx vy vz xyz].
  repeat split;
    (apply Rmult_le_pos; [| lra]);
    repeat apply Rmult_le_pos; try lra; apply Hmix; assumption.
Qed.

Lemma vadd_nonneg (a b : vec3f) : nonneg3 a -> nonneg3 b -> nonneg3 (a +v b).
Proof.
  unfold nonneg3, vadd, zip3. simpl. intros [? [? ?]] [? [? ?]].
  repeat split; lra.
Qed.

Lemma getGlow_loop_nonneg (u : Uniforms) (ro rd : vec3f) (tParams tEnd : R) :
  0 <= electricIntensity u -> nonneg3 (xyz (electricColor u)) ->
  forall (n : nat) (acc : vec3f) (t : R),
    nonneg3 acc -> nonneg3 (getGlow_loop u n ro rd tParams tEnd acc t).
Proof.
  intros He Hc n. induction n as [| n IH]; intros acc t Hacc; simpl.
  - exact Hacc.
  - destruct (t >? tEnd); [exact Hacc |].
    apply IH. destruct (_ <? 0.4); [| exact Hacc].
    apply vadd_nonneg; [exact Hacc |]. apply glow_term_nonneg; assumption.
Qed.

(** C10: with a non-negative arc intensity and a non-negative arc colour
    [getGlow] is non-negative in every channel, for every ray and cap,
    so the colour after the electricity pass is at least the colour
    before it in every channel. *)
Theorem getGlow_nonneg (u : Uniforms) (ro rd : vec3f) (maxT : R) :
  0 <= electricIntensity u ->
  nonneg3 (xyz (electricColor u)) ->
  nonneg3 (getGlow u ro rd maxT)
  /\ (forall col : vec3f, le3 col (add_glow u ro rd maxT col)).
Proof.
  intros He Hc.
  assert (Hg : nonneg3 (getGlow u ro rd maxT)).
  { unfold getGlow. cbv zeta. apply getGlow_loop_nonneg; try assumption.
    unfold nonneg3, splat. simpl. lra. }
  split; [exact Hg |].
  intro col. unfold add_glow. cbv zeta.
  destruct Hg as [Hx [Hy Hz]].
  destruct (_ >? 0.01); unfold le3, vadd, zip3; simpl; repeat split; lra.
Qed.

Lemma getGlow_nonneg_witness :
  nonneg3 (getGlow default_uniforms (vec3 0 1.35 3.96) (vec3 0 0 (- 1)) 15).
Proof.
  apply (getGlow_nonneg default_uniforms (vec3 0 1.35 3.96)
           (vec3 0 0 (- 1)) 15).
  - simpl. lra.
  - unfold nonneg3. simpl. lra.
Defined.

(** ** Determinism *)



(** ** Denominators of the PBR equations *)

Lemma length_sqr (a : vec3f) : length a * length a = dot a a.
Proof. unfold length. apply sqrt_sqrt. apply dot_self_nonneg. Qed.

Lemma attenuation_divisor_dot (i : nat) (p : vec3f) :
  attenuation_divisor i p = dot (xyz (lights i) -v p) (xyz (lights i) -v p).
Proof. unfold attenuation_divisor. cbv zeta. apply length_sqr. Qed.

Lemma attenuation_divisor_pos (i : nat) (p : vec3f) :
  p <> xyz (lights i) -> 0 < attenuation_divisor i p.
Proof.
  intro Hne. rewrite attenuation_divisor_dot.
  destruct p as [px py pz]. destruct (xyz (lights i)) as [lx ly lz].
  unfold dot, vsub, zip3. simpl.
  pose proof (Rle_0_sqr (lx - px)) as Sx.
  pose proof (Rle_0_sqr (ly - py)) as Sy.
  pose proof (Rle_0_sqr (lz - pz)) as Sz.
  assert (Hsq : forall a b : R, a <> b -> 0 < Rsqr (b - a))
    by (intros a b Hab; apply Rsqr_pos_lt; lra).
  unfold Rsqr in *.
  destruct (Req_dec px lx) as [Hx | Hx];
    [destruct (Req_dec py ly) as [Hy | Hy];
       [destruct (Req_dec pz lz) as [Hz | Hz] | ] | ].
  - exfalso. apply Hne. subst. reflexivity.
  - pose proof (Hsq pz lz Hz). lra.
  - pose proof (Hsq py ly Hy). lra.
  - pose proof (Hsq px lx Hx). lra.
Qed.

Lemma attenuation_divisor_at_light (i : nat) :
  attenuation_divisor i (xyz (lights i)) = 0.
Proof.
  rewrite attenuation_divisor_dot.
  destruct (xyz (lights i)) as [lx ly lz].
  unfold dot, vsub, zip3. simpl. ring.
Qed.

(** C8, as the code has it: the divisors of the GGX distribution and of
    the Schlick-GGX geometry term are floored at 0.00001 and the divisor
    of the specular quotient is at least 0.0001, for all inputs; the
    divisor [dist * dist] of the attenuation carries no floor: it is
    positive at every point other than the light's own position. *)
Theorem pbr_divisors_guarded :
  (forall (N H : vec3f) (roughness : R),
     0.00001 <= distributionGGX_divisor N H roughness)
  /\ (forall NdotV roughness : R,
        0.00001 <= geometrySchlickGGX_divisor NdotV roughness)
  /\ (forall n v L : vec3f, 0.0001 <= specular_divisor n v L)
  /\ (forall (i : nat) (p : vec3f),
        p <> xyz (lights i) -> 0 < attenuation_divisor i p).
Proof.
  repeat split.
  - intros. unfold distributionGGX_divisor. cbv zeta. apply Rmax_r.
  - intros. unfold geometrySchlickGGX_divisor. cbv zeta. apply Rmax_r.
  - intros. unfold specular_divisor.
    assert (0 <= Rmax (dot n v) 0) by apply Rmax_r.
    assert (0 <= Rmax (dot n L) 0) by apply Rmax_r.
    assert (0 <= 4 * Rmax (dot n v) 0 * Rmax (dot n L) 0)
      by (repeat apply Rmult_le_pos; lra).
    lra.
  - exact attenuation_divisor_pos.
Qed.

Lemma pbr_divisors_guarded_witness :
  0 < attenuation_divisor 0 (vec3 0 0 0).
Proof.
  apply (proj2 (proj2 (proj2 pbr_divisors_guarded)) 0%nat (vec3 0 0 0)).
  simpl. intro H. injection H as H _ _. lra.
Defined.

(** C8 as stated fails: at the position of the key light the divisor of
    the attenuation is zero. *)
Lemma attenuation_divisor_zero :
  attenuation_divisor 0 (vec3 (- 2) 5 3) = 0.
Proof. exact (attenuation_divisor_at_light 0). Qed.

(** ** The trap is dead *)

(** C9: the distance returned by [sdFractal] does not depend on the
    trap: with the trap and its update removed the function returns the
    same distance at every point, for all parameters and times. *)
Theorem sdFractal_trap_dead (u : Uniforms) (p : vec3f) :
  sdFractal u p = sdFractal_notrap u p.
Proof. symmetry. apply sdFractal_notrap_eq. Qed.

(** * Further properties of the kernel *)

(** ** The noise library *)

Lemma fract_range (e : R) : 0 <= fract e < 1.
Proof.
  unfold fract, wfloor. destruct (base_Int_part e) as [H1 H2]. lra.
Qed.

Lemma mix_range (a b t : R) :
  0 <= a < 1 -> 0 <= b < 1 -> 0 <= t <= 1 -> 0 <= mix a b t < 1.
Proof.
  intros Ha Hb Ht. unfold mix.
  assert (H1 : 0 <= a * (1 - t)) by (apply Rmult_le_pos; lra).
  assert (H2 : 0 <= b * t) by (apply Rmult_le_pos; lra).
  split; [lra |].
  destruct (Rle_dec a b) as [Hab | Hab].
  - assert (a * (1 - t) <= b * (1 - t))
      by (apply Rmult_le_compat_r; lra).
    lra.
  - assert (b * t <= a * t) by (apply Rmult_le_compat_r; lra).
    lra.
Qed.

Lemma hermite_range (f : R) : 0 <= f <= 1 -> 0 <= f * f * (3 - 2 * f) <= 1.
Proof.
  intro Hf.
  assert (Hsq : 0 <= f * f) by nra.
  assert (Hsq' : 0 <= (1 - f) * (1 - f)) by nra.
  split.
  - apply Rmult_le_pos; lra.
  - replace (f * f * (3 - 2 * f))
      with (1 - (1 - f) * (1 - f) * (1 + 2 * f)) by ring.
    assert (0 <= (1 - f) * (1 - f) * (1 + 2 * f))
      by (apply Rmult_le_pos; lra).
    lra.
Qed.

(** [hash] returns a fractional part. *)
Theorem hash_range (p : vec3f) : 0 <= hash p < 1.
Proof. unfold hash. cbv zeta. apply fract_range. Qed.

(** [noise] interpolates eight hashes with weights of the unit
    interval, so it stays in the range of [hash]. *)
Theorem noise_range (p : vec3f) : 0 <= noise p < 1.
Proof.
  unfold noise. cbv zeta.
  assert (Hw : forall c : R, 0 <= fract c * fract c * (3 - 2 * fract c) <= 1).
  { intro c. apply hermite_range. pose proof (fract_range c). lra. }
  unfold vmul, vfract, zip3, map3. cbn [vx vy vz].
  repeat apply mix_range; try apply hash_range; apply Hw.
Qed.

(** Four octaves of amplitudes 0.5, 0.25, 0.125 and 0.0625. *)
Theorem fbm_range (p : vec3f) : 0 <= fbm p <= 0.9375.
Proof.
  unfold fbm. simpl fbm_loop.
  repeat match goal with
  | |- context [noise ?x] =>
      let H := fresh "H" in
      pose proof (noise_range x) as H;
      let n := fresh "n" in
      set (n := noise x) in *; clearbody n
  end.
  lra.
Qed.

(** Three ridged octaves of amplitudes 1, 0.5 and 0.25, each ridge at
    most 0.5 high: the remapped value never leaves [-0.3125, 1]. *)
Theorem sparkNoise_range (p : vec3f) (t : R) :
  - 0.3125 <= sparkNoise p t <= 1.
Proof.
  unfold sparkNoise. simpl sparkNoise_loop.
  repeat match goal with
  | |- context [Rabs (noise ?x - 0.5)] =>
      let H := fresh "H" in
      pose proof (noise_range x) as H;
      let H' := fresh "H" in
      assert (H' : 0 <= Rabs (noise x - 0.5) <= 0.5) by rcases;
      let n := fresh "n" in
      set (n := Rabs (noise x - 0.5)) in *; clearbody n
  end.
  lra.
Qed.

(** ** Rotations *)

Lemma normalize_unit (a : vec3f) :
  0 < dot a a -> dot (normalize a) (normalize a) = 1.
Proof.
  intro Ha. unfold normalize, vdivs, map3.
  pose proof (length_sqr a) as Hl.
  assert (Hpos : 0 < length a) by (unfold length; apply sqrt_lt_R0; exact Ha).
  set (l := length a) in *. unfold dot in *. cbn [vx vy vz].
  replace (vx a / l * (vx a / l) + vy a / l * (vy a / l)
           + vz a / l * (vz a / l))
    with ((vx a * vx a + vy a * vy a + vz a * vz a) / (l * l))
    by (field; lra).
  rewrite <- Hl. field. lra.
Qed.

Lemma rotate_dot (p axis : vec3f) (angle : R) :
  0 < dot axis axis ->
  dot (rotate p angle axis) (rotate p angle axis) = dot p p.
Proof.
  intro Ha. pose proof (normalize_unit axis Ha) as Hu.
  pose proof (sin2_cos2 angle) as Hsc. unfold Rsqr in Hsc.
  unfold rotate. cbv zeta.
  set (a := normalize axis) in *. set (s := sin angle) in *.
  set (c := cos angle) in *.
  destruct a as [ax ay az]. destruct p as [px py pz].
  unfold dot, mat_mul_vec, vadd, vscale, zip3, map3 in *.
  cbn [vx vy vz col0 col1 col2] in *.
  clearbody s c. nsatz.
Qed.

(** [rotate] about any axis that is not the zero vector keeps the
    length of the point, for every angle. *)
Theorem rotate_isometry (p axis : vec3f) (angle : R) :
  0 < dot axis axis ->
  length (rotate p angle axis) = length p.
Proof. intro Ha. unfold length. rewrite rotate_dot by exact Ha. reflexivity. Qed.

Lemma rotate_isometry_witness :
  length (rotate (vec3 1 2 3) 0.7 (vec3 1 0 1)) = length (vec3 1 2 3).
Proof. apply rotate_isometry. unfold dot. simpl. lra. Defined.

(** ** The fractal is bounded, at every time *)

Lemma dot_le_max_abs (p : vec3f) : dot p p <= 3 * (max_abs p * max_abs p).
Proof.
  destruct p as [px py pz]. unfold dot, max_abs. cbn [vx vy vz].
  assert (Hsq : forall a : R, a * a = Rabs a * Rabs a)
    by (intro a; rcases; ring).
  rewrite (Hsq px), (Hsq py), (Hsq pz).
  pose proof (Rabs_pos px). pose proof (Rabs_pos py). pose proof (Rabs_pos pz).
  set (x := Rabs px) in *. set (y := Rabs py) in *. set (z := Rabs pz) in *.
  clearbody x y z.
  unfold Rmax. repeat destruct (Rle_dec _ _); nra.
Qed.

Lemma max_abs_lower (p : vec3f) (a : R) :
  0 <= a -> 3 * (a * a) <= dot p p -> a <= max_abs p.
Proof.
  intros Ha H. pose proof (dot_le_max_abs p) as Hm.
  assert (Hpos : 0 <= max_abs p).
  { unfold max_abs. eapply Rle_trans; [apply Rabs_pos | apply Rmax_l]. }
  nra.
Qed.

Lemma fold_step_grows_max (u : Uniforms) (warp : R) (z : vec3f) (sc a : R) :
  a <= max_abs z ->
  2 * a - fold_offset u <= vx (fst (fold_step_notrap u warp (z, sc)))
  /\ snd (fold_step_notrap u warp (z, sc)) = sc * 2.
Proof.
  intro Ha. destruct z as [zx zy zz].
  unfold max_abs, fold_step_notrap, fold_offset, vabs, vsubs, vscale, map3
    in *.
  simpl in *. split; [| reflexivity].
  rcases.
Qed.

(** A point of length at least [sqrt 3 * a] is at distance at least
    [a - (15 * offset + 2.5) / 16] from the fractal, whatever the time,
    the animation speed and the audio warp. *)
Theorem sdFractal_outside (u : Uniforms) (p : vec3f) (a : R) :
  0 <= a -> 3 * (a * a) <= dot p p ->
  (16 * a - 15 * fold_offset u - 2.5) / 16 <= sdFractal u p.
Proof.
  intros Ha Hp. rewrite <- sdFractal_notrap_eq. unfold sdFractal_notrap.
  cbv zeta.
  set (w := wy (audio u) * 0.2).
  set (q := rotate (rotate p _ _) _ _).
  assert (Hq : dot q q = dot p p).
  { unfold q. rewrite !rotate_dot; [reflexivity | |]; unfold dot; simpl; lra. }
  assert (Hm : a <= max_abs q) by (apply max_abs_lower; [exact Ha | lra]).
  simpl fold_loop_notrap.
  destruct (fold_step_grows_max u w q 1 a Hm) as [H1 S1].
  destruct (fold_step_notrap u w (q, 1)) as [z1 s1]. simpl in H1, S1.
  destruct (fold_step_grows_x u w z1 s1 _ H1) as [H2 S2].
  destruct (fold_step_notrap u w (z1, s1)) as [z2 s2]. simpl in H2, S2.
  destruct (fold_step_grows_x u w z2 s2 _ H2) as [H3 S3].
  destruct (fold_step_notrap u w (z2, s2)) as [z3 s3]. simpl in H3, S3.
  destruct (fold_step_grows_x u w z3 s3 _ H3) as [H4 S4].
  destruct (fold_step_notrap u w (z3, s3)) as [z4 s4]. simpl in H4, S4.
  simpl fst. simpl snd.
  assert (Hs : s4 = 16) by lra. rewrite Hs.
  pose proof (length_ge_vx z4) as Hl.
  eapply Rle_trans; [| apply Rmax_r].
  unfold Rdiv. apply Rmult_le_compat_r; lra.
Qed.

Lemma sdFractal_outside_witness :
  (16 * 3.5 - 15 * fold_offset default_uniforms - 2.5) / 16
  <= sdFractal default_uniforms (vec3 (- 2) 5 3).
Proof. apply sdFractal_outside; [lra | unfold dot; simpl; lra]. Defined.

(** ** What the raymarcher returns *)

(** The loop keeps [t] non-negative, reports no material without a hit,
    and a hit only where the scene distance is below [EPSILON]. *)
Lemma raymarch_loop_sound (u : Uniforms) (ro rd : vec3f) (n : nat) :
  forall st : MarchState,
    mhit st = false -> 0 <= mt st ->
    let st' := raymarch_loop u n ro rd st in
    0 <= mt st'
    /\ (mhit st' = true ->
        x2 (map u (ro +v rd *s mt st')) < EPSILON
        /\ mm st' = y2 (map u (ro +v rd *s mt st')))
    /\ (mhit st' = false -> mm st' = mm st).
Proof.
  induction n as [| n IH]; intros st Hh Ht.
  - simpl. split; [exact Ht |]. split; [| reflexivity].
    intro H. rewrite Hh in H. discriminate.
  - rewrite raymarch_loop_S. cbv zeta.
    destruct (Rlt_dec (x2 (map u (ro +v rd *s mt st))) EPSILON)
      as [Hlt | Hge].
    + rewrite ltb_lt by exact Hlt. simpl.
      split; [exact Ht |]. split.
      * intros _. split; [exact Hlt | reflexivity].
      * intro H. discriminate.
    + rewrite ltb_ge by lra.
      destruct (mt st >? 30).
      * split; [exact Ht |]. split; [| reflexivity].
        intro H. rewrite Hh in H. discriminate.
      * apply (IH (mkMarch _ (mm st) (mhit st))); simpl; [exact Hh |].
        unfold EPSILON in Hge. lra.
Qed.

(** The distance returned by [raymarch] is never negative.  When the
    hit flag is 1 the scene distance at the returned point is below
    [EPSILON] and the returned material is the one [map] reports there,
    Fractal or Floor; when it is 0 the returned material is -1. *)
Theorem raymarch_sound (u : Uniforms) (ro rd : vec3f) :
  let res := raymarch u ro rd in
  0 <= vx res
  /\ (vz res = 1 \/ vz res = 0)
  /\ (vz res = 1 ->
      x2 (map u (ro +v rd *s vx res)) < EPSILON
      /\ vy res = y2 (map u (ro +v rd *s vx res))
      /\ (vy res = Fractal \/ vy res = Floor))
  /\ (vz res = 0 -> vy res = - 1).
Proof.
  cbv zeta. unfold raymarch. cbv zeta.
  destruct (raymarch_loop_sound u ro rd 160 (mkMarch 0 (- 1) false)
              eq_refl (Rle_refl 0)) as [Ht [Hhit Hmiss]].
  destruct (mhit (raymarch_loop u 160 ro rd (mkMarch 0 (- 1) false))).
  - destruct (Hhit eq_refl) as [Hd Hm]. cbn [vx vy vz].
    split; [exact Ht |]. split; [left; reflexivity |]. split.
    + intros _. split; [exact Hd |]. split; [exact Hm |].
      rewrite Hm. unfold map. cbv zeta.
      destruct (_ <? _); [left | right]; reflexivity.
    + intro H. lra.
  - cbn [vx vy vz].
    split; [exact Ht |]. split; [right; reflexivity |]. split.
    + intro H. lra.
    + intros _. reflexivity.
Qed.

Lemma raymarch_sound_witness :
  x2 (map default_uniforms
        (vec3 0 0 20 +v vec3 0 0 (- 1)
           *s vx (raymarch default_uniforms (vec3 0 0 20) (vec3 0 0 (- 1)))))
  < EPSILON.
Proof.
  apply (proj1 (proj2 (proj2
           (raymarch_sound default_uniforms (vec3 0 0 20)
              (vec3 0 0 (- 1)))))).
  destruct (raymarch_towards_origin default_uniforms) as [t [E _]];
    try reflexivity.
  rewrite E. reflexivity.
Defined.

(** ** The lights are away from every surface *)

Lemma lights_far (i : nat) :
  3 * (3.5 * 3.5) <= dot (xyz (lights i)) (xyz (lights i))
  /\ 2 <= wy (lights i).
Proof.
  destruct i as [| [| i]]; unfold dot; simpl; split; lra.
Qed.

Lemma map_at_light (u : Uniforms) (i : nat) :
  detail u <= 1 -> 2 <= x2 (map u (xyz (lights i))).
Proof.
  intro Hd. destruct (lights_far i) as [Hdot Hy].
  pose proof (sdFractal_outside u (xyz (lights i)) 3.5) as Hf.
  assert (Hc : fold_offset u <= 1.2) by (unfold fold_offset; lra).
  unfold map. cbv zeta.
  assert (Hvy : vy (xyz (lights i)) = wy (lights i)) by reflexivity.
  rewrite Hvy.
  assert (2.2 <= sdFractal u (xyz (lights i))).
  { eapply Rle_trans; [| apply Hf; [lra | exact Hdot]]. lra. }
  unfold ltb. destruct (Rlt_dec _ _); simpl; lra.
Qed.

(** With the detail slider in its range, no ray is reported to hit at
    the position of a light: at every hit point that [raymarch] returns,
    the divisor [dist * dist] of the attenuation of each of the three
    lights is positive.  This holds at every time and audio level. *)
Theorem attenuation_safe_at_hits (u : Uniforms) (ro rd : vec3f) (i : nat) :
  detail u <= 1 ->
  vz (raymarch u ro rd) = 1 ->
  0 < attenuation_divisor i (ro +v rd *s vx (raymarch u ro rd)).
Proof.
  intros Hd Hhit.
  destruct (raymarch_sound u ro rd) as [_ [_ [Hs _]]].
  destruct (Hs Hhit) as [Hlt _].
  apply attenuation_divisor_pos. intro Heq. rewrite Heq in Hlt.
  pose proof (map_at_light u i Hd). unfold EPSILON in Hlt. lra.
Qed.

Lemma attenuation_safe_at_hits_witness :
  0 < attenuation_divisor 0
        (vec3 0 0 20 +v vec3 0 0 (- 1)
           *s vx (raymarch default_uniforms (vec3 0 0 20) (vec3 0 0 (- 1)))).
Proof.
  apply attenuation_safe_at_hits.
  - simpl. lra.
  - destruct (raymarch_towards_origin default_uniforms) as [t [E _]];
      try reflexivity.
    rewrite E. reflexivity.
Defined.

(** ** The box distance *)

Lemma length_ge_vy (a : vec3f) : vy a <= length a.
Proof.
  unfold length.
  destruct (Rle_dec 0 (vy a)) as [Hx | Hx].
  - rewrite <- (sqrt_square (vy a)) at 1 by assumption.
    apply sqrt_le_1_alt. unfold dot. nra.
  - pose proof (sqrt_pos (dot a a)). lra.
Qed.

Lemma length_ge_vz (a : vec3f) : vz a <= length a.
Proof.
  unfold length.
  destruct (Rle_dec 0 (vz a)) as [Hx | Hx].
  - rewrite <- (sqrt_square (vz a)) at 1 by assumption.
    apply sqrt_le_1_alt. unfold dot. nra.
  - pose proof (sqrt_pos (dot a a)). lra.
Qed.

(** [sdBox] is non-positive exactly on the box: inside it is the
    largest of the three signed face distances, outside it is
    positive. *)
Theorem sdBox_sign (p b : vec3f) :
  (sdBox p b <= 0 <-> in_box p b)
  /\ (in_box p b ->
      sdBox p b = Rmax (Rabs (vx p) - vx b)
                    (Rmax (Rabs (vy p) - vy b) (Rabs (vz p) - vz b))).
Proof.
  unfold in_box.
  assert (Hin : Rabs (vx p) <= vx b /\ Rabs (vy p) <= vy b
                /\ Rabs (vz p) <= vz b ->
      sdBox p b = Rmax (Rabs (vx p) - vx b)
                    (Rmax (Rabs (vy p) - vy b) (Rabs (vz p) - vz b))).
  { intros [Hx [Hy Hz]]. unfold sdBox. cbv zeta.
    unfold length, dot, vmax, vsub, vabs, splat, zip3, map3.
    cbn [vx vy vz].
    rewrite (Rmax_right (Rabs (vx p) - vx b) 0) by lra.
    rewrite (Rmax_right (Rabs (vy p) - vy b) 0) by lra.
    rewrite (Rmax_right (Rabs (vz p) - vz b) 0) by lra.
    replace (0 * 0 + 0 * 0 + 0 * 0) with 0 by ring. rewrite sqrt_0.
    set (qx := Rabs (vx p) - vx b) in *.
    set (qy := Rabs (vy p) - vy b) in *.
    set (qz := Rabs (vz p) - vz b) in *.
    assert (Hqx : qx <= 0) by (unfold qx; lra).
    assert (Hqy : qy <= 0) by (unfold qy; lra).
    assert (Hqz : qz <= 0) by (unfold qz; lra).
    clearbody qx qy qz. unfold Rmin, Rmax.
    repeat destruct (Rle_dec _ _); lra. }
  split; [| exact Hin]. split.
  - intro Hle. unfold sdBox in Hle. cbv zeta in Hle.
    set (q := vabs p -v b) in *.
    pose proof (length_ge_vx (vmax q (splat 0))) as Lx.
    pose proof (length_ge_vy (vmax q (splat 0))) as Ly.
    pose proof (length_ge_vz (vmax q (splat 0))) as Lz.
    assert (Qx : vx q = Rabs (vx p) - vx b) by reflexivity.
    assert (Qy : vy q = Rabs (vy p) - vy b) by reflexivity.
    assert (Qz : vz q = Rabs (vz p) - vz b) by reflexivity.
    unfold vmax, splat, zip3 in Lx, Ly, Lz. cbn [vx vy vz] in Lx, Ly, Lz.
    set (l := length _) in *. clearbody l.
    assert (Hq : vx q <= 0 /\ vy q <= 0 /\ vz q <= 0).
    { set (qx := vx q) in *. set (qy := vy q) in *. set (qz := vz q) in *.
      clearbody qx qy qz. clear Qx Qy Qz.
      unfold Rmin, Rmax in *.
      repeat match goal with
      | H : context [Rle_dec ?a ?b] |- _ =>
          revert H; destruct (Rle_dec a b); intro
      end; repeat split; lra. }
    rewrite Qx, Qy, Qz in Hq. lra.
  - intro H. rewrite (Hin H).
    destruct H as [Hx [Hy Hz]].
    unfold Rmax. repeat destruct (Rle_dec _ _); lra.
Qed.

Lemma sdBox_sign_witness :
  sdBox (vec3 1 (- 1) 3) (vec3 1.2 1.2 4)
  = Rmax (Rabs 1 - 1.2) (Rmax (Rabs (- 1) - 1.2) (Rabs 3 - 4)).
Proof.
  apply (proj2 (sdBox_sign (vec3 1 (- 1) 3) (vec3 1.2 1.2 4))).
  unfold in_box. simpl. rcases.
Defined.

(** ** The fold *)

Lemma fold_step_notrap_sort (u : Uniforms) (warp : R) (z : vec3f) (sc : R) :
  fold_step_notrap u warp (z, sc)
  = (fold_finish u warp (sort3 (vabs z)), sc * 2).
Proof. reflexivity. Qed.

Lemma sort3_sorted (z : vec3f) :
  vy (sort3 z) <= vx (sort3 z) /\ vz (sort3 z) <= vy (sort3 z).
Proof.
  destruct z as [a b c]. unfold sort3. cbv zeta. cbn [vx vy vz].
  unfold ltb.
  destruct (Rlt_dec a b); cbn [vx vy vz];
    destruct (Rlt_dec _ c); cbn [vx vy vz];
    destruct (Rlt_dec _ _); cbn [vx vy vz]; lra.
Qed.

(** The three conditional swaps sort the folded point: after every
    pass of the fold loop the first component is the largest, and with
    no audio warp the three components are in descending order and none
    is below minus the offset. *)
Theorem fold_step_descending (u : Uniforms) (warp : R) (st : FoldState) :
  let z := fz (fold_step u warp st) in
  vy z <= vx z
  /\ - fold_offset u <= vy z
  /\ (warp = 0 -> vz z <= vy z /\ - fold_offset u <= vz z).
Proof.
  cbv zeta.
  assert (E : fz (fold_step u warp st)
              = fold_finish u warp (sort3 (vabs (fz st)))) by reflexivity.
  rewrite E.
  destruct (sort3_sorted (vabs (fz st))) as [H1 H2].
  assert (H3 : 0 <= vz (sort3 (vabs (fz st)))).
  { destruct (fz st) as [a b c]. unfold sort3, vabs, map3. cbv zeta.
    cbn [vx vy vz]. pose proof (Rabs_pos a). pose proof (Rabs_pos b).
    pose proof (Rabs_pos c). unfold ltb.
    destruct (Rlt_dec (Rabs a) (Rabs b)); cbn [vx vy vz];
      destruct (Rlt_dec _ (Rabs c)); cbn [vx vy vz];
      destruct (Rlt_dec _ _); cbn [vx vy vz]; lra. }
  set (s := sort3 _) in *. clearbody s.
  unfold fold_finish, fold_offset, vsubs, vscale, map3. cbv zeta.
  cbn [vx vy vz].
  split; [lra |]. split; [lra |].
  intro Hw. rewrite Hw. lra.
Qed.

Lemma fold_step_descending_witness :
  vz (fz (fold_step default_uniforms 0 (mkFold (vec3 1 (- 3) 2) 1 1000)))
  <= vy (fz (fold_step default_uniforms 0 (mkFold (vec3 1 (- 3) 2) 1 1000))).
Proof.
  apply (proj2 (proj2 (fold_step_descending default_uniforms 0
                         (mkFold (vec3 1 (- 3) 2) 1 1000)))).
  reflexivity.
Defined.

Lemma sort3_swap_xy (a b c : R) : sort3 (vec3 b a c) = sort3 (vec3 a b c).
Proof.
  unfold sort3. cbv zeta. cbn [vx vy vz]. unfold ltb.
  destruct (Rlt_dec b a); destruct (Rlt_dec a b); cbn [vx vy vz];
    repeat (destruct (Rlt_dec _ _); cbn [vx vy vz] in * );
    f_equal; lra.
Qed.

Lemma sort3_swap_yz (a b c : R) : sort3 (vec3 a c b) = sort3 (vec3 a b c).
Proof.
  unfold sort3. cbv zeta. cbn [vx vy vz]. unfold ltb.
  destruct (Rlt_dec a c); destruct (Rlt_dec a b); cbn [vx vy vz];
    repeat (destruct (Rlt_dec _ _); cbn [vx vy vz] in * );
    f_equal; lra.
Qed.

(** At time 0, when the fractal is not rotated, its distance field has
    the symmetries of the cube: it is unchanged by the reflection of any
    coordinate and by the exchange of any two coordinates. *)
Theorem sdFractal_symmetric (u : Uniforms) (p : vec3f) :
  time u = 0 ->
  sdFractal u (vabs p) = sdFractal u p
  /\ sdFractal u (vec3 (vy p) (vx p) (vz p)) = sdFractal u p
  /\ sdFractal u (vec3 (vx p) (vz p) (vy p)) = sdFractal u p.
Proof.
  intro Ht. rewrite !sdFractal_at_rest by exact Ht. cbv zeta.
  destruct p as [a b c]. cbn [vx vy vz].
  simpl fold_loop_notrap. rewrite !fold_step_notrap_sort.
  assert (E1 : sort3 (vabs (vabs (vec3 a b c))) = sort3 (vabs (vec3 a b c))).
  { unfold vabs, map3. cbn [vx vy vz]. rewrite !Rabs_Rabsolu. reflexivity. }
  assert (E2 : sort3 (vabs (vec3 b a c)) = sort3 (vabs (vec3 a b c)))
    by apply sort3_swap_xy.
  assert (E3 : sort3 (vabs (vec3 a c b)) = sort3 (vabs (vec3 a b c)))
    by apply sort3_swap_yz.
  rewrite E1, E2, E3. repeat split.
Qed.

Lemma sdFractal_symmetric_witness :
  sdFractal default_uniforms (vabs (vec3 (- 1) 2 (- 3)))
  = sdFractal default_uniforms (vec3 (- 1) 2 (- 3)).
Proof.
  apply (proj1 (sdFractal_symmetric default_uniforms (vec3 (- 1) 2 (- 3))
                  eq_refl)).
Defined.

(** ** Soft shadows at the two ends *)

Lemma getShadow_loop_S (u : Uniforms) (n : nat) (ro rd : vec3f)
    (tmax k res t : R) :
  getShadow_loop u (S n) ro rd tmax k res t =
    let h := x2 (map u (ro +v rd *s t)) in
    let res := Rmin res (k * h / t) in
    let t := t + clamp h 0.002 0.2 in
    if ((res <? 0.001) || (t >? tmax))%bool then res
    else getShadow_loop u n ro rd tmax k res t.
Proof. reflexivity. Qed.

(** A shadow ray that starts inside or on a surface is fully shadowed:
    [getShadow] returns 0 after its first sample. *)
Theorem getShadow_blocked (u : Uniforms) (ro rd : vec3f) (tmin tmax k : R) :
  0 < tmin -> 0 <= k ->
  x2 (map u (ro +v rd *s tmin)) <= 0 ->
  getShadow u ro rd tmin tmax k = 0.
Proof.
  intros Ht Hk Hh. unfold getShadow. cbv zeta.
  rewrite getShadow_loop_S. cbv zeta.
  set (h := x2 (map u (ro +v rd *s tmin))) in *.
  assert (Hq : k * h / tmin <= 0).
  { unfold Rdiv. assert (0 < / tmin) by (apply Rinv_0_lt_compat; exact Ht).
    assert (k * h <= 0) by nra. nra. }
  rewrite (Rmin_right 1 (k * h / tmin)) by lra.
  rewrite (ltb_lt (k * h / tmin) 0.001) by lra. simpl.
  set (r := k * h / tmin) in *. clearbody r. rcases.
Qed.

Lemma getShadow_blocked_witness :
  getShadow default_uniforms (vec3 0 0 (- 0.05)) (vec3 0 0 1) 0.05 5 16 = 0.
Proof.
  apply getShadow_blocked; [lra | lra |].
  replace (vec3 0 0 (- 0.05) +v vec3 0 0 1 *s 0.05) with (vec3 0 0 0)
    by (unfold vadd, vscale, zip3, map3; simpl; f_equal; lra).
  unfold map. cbv zeta.
  rewrite (sdFractal_origin default_uniforms) by reflexivity.
  unfold ltb. destruct (Rlt_dec _ _); simpl; simpl in *; lra.
Defined.

(** A shadow ray along which, up to the light, the scene distance never
    drops below [t / k] is fully lit: [getShadow] returns 1. *)
Theorem getShadow_open (u : Uniforms) (ro rd : vec3f) (tmin tmax k : R) :
  0 < tmin ->
  (forall t : R, tmin <= t <= Rmax tmin tmax ->
                 t <= k * x2 (map u (ro +v rd *s t))) ->
  getShadow u ro rd tmin tmax k = 1.
Proof.
  intros Ht Hopen. unfold getShadow. cbv zeta.
  assert (Hloop : forall (n : nat) (t : R),
            tmin <= t <= Rmax tmin tmax ->
            getShadow_loop u n ro rd tmax k 1 t = 1).
  { induction n as [| n IH]; intros t Hge; [reflexivity |].
    rewrite getShadow_loop_S. cbv zeta.
    set (h := x2 (map u (ro +v rd *s t))).
    assert (Hq : 1 <= k * h / t).
    { pose proof (Hopen t Hge) as Hk. fold h in Hk.
      apply Rmult_le_reg_r with t; [lra |].
      unfold Rdiv. rewrite Rmult_assoc, Rinv_l by lra. lra. }
    rewrite (Rmin_left 1 (k * h / t)) by exact Hq.
    rewrite (ltb_ge 1 0.001) by lra. simpl.
    pose proof (clamp_range h 0.002 0.2) as Hc.
    destruct (Rlt_dec tmax (t + clamp h 0.002 0.2)) as [Hend | Hin].
    - rewrite gtb_gt by exact Hend. reflexivity.
    - rewrite gtb_le by lra. apply IH.
      pose proof (Rmax_r tmin tmax). lra. }
  rewrite Hloop by (pose proof (Rmax_l tmin tmax); lra). rcases.
Qed.

Lemma getShadow_open_witness :
  getShadow default_uniforms (vec3 0 0 20) (vec3 0 1 0) 0.05 5 16 = 1.
Proof.
  apply getShadow_open; [lra |].
  intros t [Ht Ht'].
  pose proof (map_above default_uniforms t eq_refl eq_refl) as Hm.
  assert (Rmax 0.05 5 = 5) by rcases.
  lra.
Defined.

(** ** Normals *)

Lemma unit_component_range (a : vec3f) :
  dot a a = 1 -> - 1 <= vy a <= 1.
Proof. unfold dot. intro H. nra. Qed.

(** Where the central differences of the scene distance do not all
    vanish, [calcNormal] returns a vector of length 1, and the ambient
    occlusion computed with that normal lies in [0,1]. *)
Theorem calcNormal_unit (u : Uniforms) (p : vec3f) :
  0 < dot (scene_gradient u p) (scene_gradient u p) ->
  length (calcNormal u p) = 1
  /\ 0 <= getAO u p (calcNormal u p) <= 1.
Proof.
  intro Hg.
  assert (E : calcNormal u p = normalize (scene_gradient u p))
    by reflexivity.
  rewrite E. pose proof (normalize_unit _ Hg) as Hu. split.
  - unfold length. rewrite Hu. apply sqrt_1.
  - apply getAO_range. apply unit_component_range. exact Hu.
Qed.

Lemma map_on_floor (u : Uniforms) (p : vec3f) :
  time u = 0 -> detail u = 0.35 ->
  20 <= Rabs (vz p) -> vy p <= 10 ->
  x2 (map u p) = vy p + 2.2.
Proof.
  intros Ht Hd Hz Hy.
  assert (Hc : fold_offset u = 0.81) by (unfold fold_offset; rewrite Hd; lra).
  pose proof (sdFractal_lower u p 20 Ht Hz) as Hs. rewrite Hc in Hs.
  unfold map. cbv zeta.
  rewrite ltb_ge by lra. simpl. lra.
Qed.

Lemma calcNormal_unit_witness :
  length (calcNormal default_uniforms (vec3 0 0 21)) = 1.
Proof.
  apply calcNormal_unit.
  unfold scene_gradient, dot, EPSILON. cbn [vx vy vz].
  rewrite !(map_on_floor default_uniforms)
    by (try reflexivity; simpl; rcases).
  unfold vadd, vsub, zip3. cbn [vx vy vz]. lra.
Defined.

(** ** The terms of the BRDF *)

(** Schlick's Fresnel term lies between [F0] and 1 in every channel
    (for [F0] at most 1); it is [F0] itself when the cosine is 1 or more
    and 1 when the cosine is 0 or less. *)
Theorem fresnelSchlick_range (cosTheta : R) (F0 : vec3f) :
  (vx F0 <= 1 -> vy F0 <= 1 -> vz F0 <= 1 ->
   le3 F0 (fresnelSchlick cosTheta F0)
   /\ le3 (fresnelSchlick cosTheta F0) (splat 1))
  /\ (1 <= cosTheta -> fresnelSchlick cosTheta F0 = F0)
  /\ (cosTheta <= 0 -> fresnelSchlick cosTheta F0 = splat 1).
Proof.
  unfold fresnelSchlick.
  assert (H5 : (5 : R) <> 0) by lra.
  split; [| split].
  - intros Hx Hy Hz.
    pose proof (wpow_unit_range (clamp (1 - cosTheta) 0 1) 5) as Hw.
    assert (Hc : 0 <= clamp (1 - cosTheta) 0 1 <= 1)
      by (apply clamp_range; lra).
    specialize (Hw ltac:(lra) Hc).
    set (w := wpow _ 5) in *. clearbody w.
    unfold le3, vadd, vsub, vscale, splat, zip3, map3. cbn [vx vy vz].
    repeat split; nra.
  - intro Hc. replace (clamp (1 - cosTheta) 0 1) with 0 by rcases.
    rewrite wpow_zero_base by exact H5.
    destruct F0 as [a b c].
    unfold vadd, vsub, vscale, splat, zip3, map3. cbn [vx vy vz].
    f_equal; ring.
  - intro Hc. replace (clamp (1 - cosTheta) 0 1) with 1 by rcases.
    rewrite wpow_one_base.
    destruct F0 as [a b c].
    unfold vadd, vsub, vscale, splat, zip3, map3. cbn [vx vy vz].
    f_equal; ring.
Qed.

Lemma fresnelSchlick_range_witness :
  fresnelSchlick 1 (vec3 0.04 0.04 0.04) = vec3 0.04 0.04 0.04.
Proof.
  apply (proj1 (proj2 (fresnelSchlick_range 1 (vec3 0.04 0.04 0.04)))).
  lra.
Defined.

Lemma geometrySchlickGGX_nonneg (NdotV roughness : R) :
  0 <= NdotV -> 0 <= geometrySchlickGGX NdotV roughness.
Proof.
  intro Hn. unfold geometrySchlickGGX. cbv zeta.
  pose proof (Rmax_r (NdotV * (1 - (roughness + 1) * (roughness + 1) / 8)
                      + (roughness + 1) * (roughness + 1) / 8) 0.00001) as Hd.
  unfold geometrySchlickGGX_divisor. cbv zeta.
  set (d := Rmax _ 0.00001) in *. clearbody d.
  unfold Rdiv. apply Rmult_le_pos; [exact Hn |].
  left. apply Rinv_0_lt_compat. lra.
Qed.

(** The Schlick-GGX geometry term is a fraction: for a cosine in [0,1]
    and a roughness in [0,1] it lies in [0,1], and it vanishes at
    grazing incidence. *)
Theorem geometrySchlickGGX_range (NdotV roughness : R) :
  0 <= NdotV <= 1 -> 0 <= roughness <= 1 ->
  0 <= geometrySchlickGGX NdotV roughness <= 1
  /\ geometrySchlickGGX 0 roughness = 0.
Proof.
  intros Hn Hr. split; [split |].
  - apply geometrySchlickGGX_nonneg. lra.
  - unfold geometrySchlickGGX, geometrySchlickGGX_divisor. cbv zeta.
    set (k := (roughness + 1) * (roughness + 1) / 8).
    assert (Hk : 0.125 <= k <= 0.5) by (unfold k; nra).
    assert (Hd : NdotV <= NdotV * (1 - k) + k) by nra.
    assert (Hd' : 0.125 <= NdotV * (1 - k) + k) by nra.
    rewrite Rmax_left by lra.
    apply Rmult_le_reg_r with (NdotV * (1 - k) + k); [lra |].
    unfold Rdiv. rewrite Rmult_assoc, Rinv_l by lra. lra.
  - unfold geometrySchlickGGX. cbv zeta. unfold Rdiv. ring.
Qed.

Lemma geometrySchlickGGX_range_witness :
  0 <= geometrySchlickGGX 0.5 0.35 <= 1.
Proof. apply geometrySchlickGGX_range; lra. Defined.

Lemma distributionGGX_nonneg (N H : vec3f) (roughness : R) :
  0 <= distributionGGX N H roughness.
Proof.
  unfold distributionGGX. cbv zeta.
  assert (Hd : 0.00001 <= distributionGGX_divisor N H roughness)
    by (unfold distributionGGX_divisor; cbv zeta; apply Rmax_r).
  set (d := distributionGGX_divisor N H roughness) in *. clearbody d.
  unfold Rdiv. apply Rmult_le_pos; [nra |].
  left. apply Rinv_0_lt_compat. lra.
Qed.

(** The GGX distribution is never negative, is at most
    [100000 * roughness^4], and is 0 for a perfectly smooth surface
    (roughness 0): a point light leaves no highlight on a mirror. *)
Theorem distributionGGX_bounds (N H : vec3f) (roughness : R) :
  0 <= distributionGGX N H roughness
       <= 100000 * (roughness * roughness * (roughness * roughness))
  /\ distributionGGX N H 0 = 0.
Proof.
  split; [split |].
  - apply distributionGGX_nonneg.
  - unfold distributionGGX. cbv zeta.
    assert (Hd : 0.00001 <= distributionGGX_divisor N H roughness)
      by (unfold distributionGGX_divisor; cbv zeta; apply Rmax_r).
    set (d := distributionGGX_divisor N H roughness) in *. clearbody d.
    set (a2 := roughness * roughness * (roughness * roughness)).
    assert (Ha : 0 <= a2) by (unfold a2; nra).
    apply Rmult_le_reg_r with d; [lra |].
    unfold Rdiv. rewrite Rmult_assoc, Rinv_l by lra. nra.
  - unfold distributionGGX. cbv zeta. unfold Rdiv. ring.
Qed.

(** ** How far the electricity pass reaches *)

Lemma glow_sample_range (u : Uniforms) (rd : vec3f) (k : nat) :
  (k <= 34)%nat -> 0.5 <= glow_sample u rd k < 5.8.
Proof.
  intro Hk. unfold glow_sample.
  pose proof (hash_range (rd *s time u)) as Hh.
  pose proof (pos_INR k) as H0.
  apply le_INR in Hk.
  replace (INR 34) with 34 in Hk by (rewrite INR_IZR_INZ; simpl; lra).
  lra.
Qed.

Lemma getGlow_loop_cap (u : Uniforms) (ro rd : vec3f)
    (tParams tEnd1 tEnd2 : R) :
  5.8 <= tEnd1 -> 5.8 <= tEnd2 ->
  forall (n k : nat) (acc : vec3f),
    (k + n <= 35)%nat ->
    getGlow_loop u n ro rd tParams tEnd1 acc (glow_sample u rd k)
    = getGlow_loop u n ro rd tParams tEnd2 acc (glow_sample u rd k).
Proof.
  intros H1 H2 n. induction n as [| n IH]; intros k acc Hk; simpl.
  - reflexivity.
  - assert (Hr : 0.5 <= glow_sample u rd k < 5.8)
      by (apply glow_sample_range; lia).
    rewrite !gtb_le by lra.
    rewrite glow_sample_S. apply IH. lia.
Qed.

(** The 35 samples of [getGlow] start below 0.7 and are 0.15 apart, so
    none is taken at 5.8 or beyond: a cap [maxT] of 5.8 or more, and the
    bound 15 of the code, never stop the loop. *)
Theorem getGlow_reach (u : Uniforms) (ro rd : vec3f) (maxT maxT' : R) :
  5.8 <= maxT -> 5.8 <= maxT' ->
  getGlow u ro rd maxT = getGlow u ro rd maxT'.
Proof.
  intros H1 H2. unfold getGlow. cbv zeta.
  replace (0.5 + hash (rd *s time u) * 0.2) with (glow_sample u rd 0)
    by (unfold glow_sample; simpl; lra).
  apply getGlow_loop_cap; [rcases | rcases | lia].
Qed.

Lemma getGlow_reach_witness :
  getGlow default_uniforms (vec3 0 1.35 3.96) (vec3 0 0 (- 1)) 6
  = getGlow default_uniforms (vec3 0 1.35 3.96) (vec3 0 0 (- 1)) 30.
Proof. apply getGlow_reach; lra. Defined.

Lemma cauchy_schwarz (a b : vec3f) :
  dot a b * dot a b <= dot a a * dot b b.
Proof.
  destruct a as [a1 a2 a3]. destruct b as [b1 b2 b3].
  unfold dot. cbn [vx vy vz].
  assert (E : (a1 * a1 + a2 * a2 + a3 * a3) * (b1 * b1 + b2 * b2 + b3 * b3)
              - (a1 * b1 + a2 * b2 + a3 * b3) * (a1 * b1 + a2 * b2 + a3 * b3)
              = (a1 * b2 - a2 * b1) * (a1 * b2 - a2 * b1)
                + (a1 * b3 - a3 * b1) * (a1 * b3 - a3 * b1)
                + (a2 * b3 - a3 * b2) * (a2 * b3 - a3 * b2)) by ring.
  pose proof (Rle_0_sqr (a1 * b2 - a2 * b1)) as S1.
  pose proof (Rle_0_sqr (a1 * b3 - a3 * b1)) as S2.
  pose proof (Rle_0_sqr (a2 * b3 - a3 * b2)) as S3.
  unfold Rsqr in *. lra.
Qed.

Lemma dot_ray_lower (ro rd : vec3f) (t : R) :
  dot rd rd = 1 -> 81 <= dot ro ro -> 0 <= t <= 5.8 ->
  10.24 <= dot (ro +v rd *s t) (ro +v rd *s t).
Proof.
  intros Hrd Hro Ht.
  assert (E : dot (ro +v rd *s t) (ro +v rd *s t)
              = dot ro ro + 2 * t * dot ro rd + t * t * dot rd rd).
  { destruct ro, rd. unfold dot, vadd, vscale, zip3, map3.
    cbn [vx vy vz]. ring. }
  rewrite E, Hrd.
  pose proof (cauchy_schwarz ro rd) as Hcs. rewrite Hrd in Hcs.
  pose proof (length_sqr ro) as Hl. pose proof (length_nonneg ro) as Hl0.
  set (s := length ro) in *. set (e := dot ro rd) in *.
  set (D := dot ro ro) in *. clearbody s e D.
  assert (Hs : 9 <= s) by nra.
  assert (He : - s <= e) by nra.
  nra.
Qed.

(** With the camera 9 units or more from the origin no sample of the
    electricity pass comes within 0.4 of the fractal, whatever the ray:
    [getGlow] is zero and no arc is drawn. *)
Theorem getGlow_out_of_reach (u : Uniforms) (ro rd : vec3f) (maxT : R) :
  detail u <= 1 -> dot rd rd = 1 -> 81 <= dot ro ro ->
  getGlow u ro rd maxT = splat 0.
Proof.
  intros Hd Hrd Hro. apply getGlow_gated. intros k Hk _.
  assert (Hr : 0.5 <= glow_sample u rd k < 5.8)
    by (apply glow_sample_range; lia).
  pose proof (dot_ray_lower ro rd (glow_sample u rd k) Hrd Hro) as Hq.
  pose proof (sdFractal_outside u (ro +v rd *s glow_sample u rd k) 1.7)
    as Hf.
  assert (Hc : fold_offset u <= 1.2) by (unfold fold_offset; lra).
  eapply Rle_trans; [| apply Hf; lra]. lra.
Qed.

Lemma getGlow_out_of_reach_witness :
  getGlow default_uniforms (vec3 0 0 9) (vec3 0 0 (- 1)) 30 = splat 0.
Proof.
  apply getGlow_out_of_reach; [simpl; lra | |]; unfold dot; simpl; lra.
Defined.

(** With an arc colour in [0,1] every channel of [getGlow] is at most
    [21 * electricIntensity]: 35 samples of at most
    [300 * 0.002 * electricIntensity] each. *)
Theorem getGlow_upper (u : Uniforms) (ro rd : vec3f) (maxT : R) :
  0 <= electricIntensity u -> unit3 (xyz (electricColor u)) ->
  le3 (getGlow u ro rd maxT) (splat (21 * electricIntensity u)).
Proof.
  intros He [Hr [Hg Hb]]. cbn [xyz vx vy vz] in Hr, Hg, Hb.
  assert (Hterm : forall (pos : vec3f) (geoD tParams : R),
            le3 (glow_term u pos geoD tParams)
                (splat (0.6 * electricIntensity u))).
  { intros pos geoD tParams. unfold glow_term. cbv zeta.
    set (d := Rabs _).
    assert (Hd : 0 <= d) by apply Rabs_pos.
    set (intensity := 0.0003 / (d * d * d + 0.000001)).
    assert (Hi : 0 <= intensity <= 300).
    { assert (Hd3 : 0 <= d * d * d)
        by (repeat apply Rmult_le_pos; assumption).
      unfold intensity. split.
      - unfold Rdiv. apply Rmult_le_pos; [lra |].
        left. apply Rinv_0_lt_compat. lra.
      - apply Rmult_le_reg_r with (d * d * d + 0.000001); [lra |].
        unfold Rdiv. rewrite Rmult_assoc, Rinv_l by lra. lra. }
    pose proof (smoothstep_range 5 60 intensity) as Hheat.
    set (heat := smoothstep 5 60 intensity) in *.
    pose proof (smoothstep_range 0.3 0 geoD) as Hfade.
    set (fade := smoothstep 0.3 0 geoD) in *.
    match goal with
    | |- context [smoothstep 0.35 0.55 ?x] =>
        pose proof (smoothstep_range 0.35 0.55 x) as Hmask;
        set (mask := smoothstep 0.35 0.55 x) in *
    end.
    clearbody mask fade heat intensity.
    assert (Hmix : forall c : R, 0 <= c <= 1 -> 0 <= mix c 1 heat <= 1)
      by (intros c Hc0; unfold mix; nra).
    assert (Hprod : forall c : R, 0 <= c <= 1 ->
              c * intensity * fade * mask * electricIntensity u * 0.002
              <= 0.6 * electricIntensity u).
    { intros c Hc0.
      assert (P1 : 0 <= c * intensity <= 300) by nra.
      assert (P2 : 0 <= c * intensity * fade <= 300) by nra.
      assert (P3 : 0 <= c * intensity * fade * mask <= 300) by nra.
      set (x := c * intensity * fade * mask) in *. clearbody x. nra. }
    unfold le3, vmix, vscale, splat, zip3, map3. cbn [vx vy vz xyz].
    repeat split; apply Hprod; apply Hmix; assumption. }
  assert (Hloop : forall (n : nat) (tParams tEnd : R) (acc : vec3f) (t B : R),
            le3 acc (splat B) ->
            le3 (getGlow_loop u n ro rd tParams tEnd acc t)
                (splat (B + 0.6 * electricIntensity u * INR n))).
  { induction n as [| n IH]; intros tParams tEnd acc t B Hacc.
    - simpl. unfold le3, splat in *. cbn [vx vy vz] in *. lra.
    - rewrite S_INR. simpl getGlow_loop.
      destruct (t >? tEnd).
      + unfold le3, splat in *. cbn [vx vy vz] in *.
        pose proof (pos_INR n). nra.
      + replace (B + 0.6 * electricIntensity u * (INR n + 1))
          with (B + 0.6 * electricIntensity u
                + 0.6 * electricIntensity u * INR n) by ring.
        apply IH. destruct (_ <? 0.4).
        * pose proof (Hterm (ro +v rd *s t) (sdFractal u (ro +v rd *s t))
                        tParams) as Ht.
          unfold le3, splat, vadd, zip3 in *. cbn [vx vy vz] in *. lra.
        * unfold le3, splat in *. cbn [vx vy vz] in *. lra. }
  unfold getGlow. cbv zeta.
  replace (21 * electricIntensity u)
    with (0 + 0.6 * electricIntensity u * INR 35)
    by (rewrite INR_IZR_INZ; simpl; lra).
  apply Hloop. unfold le3, splat. cbn [vx vy vz]. lra.
Qed.

Lemma getGlow_upper_witness :
  le3 (getGlow default_uniforms (vec3 0 1.35 3.96) (vec3 0 0 (- 1)) 15)
      (splat (21 * electricIntensity default_uniforms)).
Proof.
  apply getGlow_upper; [simpl; lra |].
  unfold unit3. simpl. lra.
Defined.

(** ** Radiance is never negative *)

(** For a direction whose second component is at least -1 the sky is
    at least its horizon colour (0.01, 0.015, 0.02) in every channel. *)
Theorem getSky_floor (rd : vec3f) :
  - 1 <= vy rd -> le3 (vec3 0.01 0.015 0.02) (getSky rd).
Proof.
  intro Hy. unfold getSky. cbv zeta.
  match goal with
  | |- context [smoothstep 0.9 0.99 ?x] =>
      pose proof (smoothstep_range 0.9 0.99 x) as Hk;
      set (k := smoothstep 0.9 0.99 x) in *; clearbody k
  end.
  match goal with
  | |- context [wpow ?x 100] =>
      pose proof (wpow_nonneg x 100) as Hr;
      set (r := wpow x 100) in *; clearbody r
  end.
  unfold le3, vadd, vscale, vmix, splat, zip3, map3, mix.
  cbn [vx vy vz]. repeat split; nra.
Qed.

Lemma getSky_floor_witness :
  le3 (vec3 0.01 0.015 0.02) (getSky (vec3 0 1 0)).
Proof. apply getSky_floor. simpl. lra. Defined.

Lemma reflect_unit (v n : vec3f) :
  dot n n = 1 -> dot v v = 1 ->
  dot (reflect (vneg v) n) (reflect (vneg v) n) = 1.
Proof.
  destruct v as [v1 v2 v3]. destruct n as [n1 n2 n3].
  unfold reflect, dot, vneg, vsub, vscale, zip3, map3. cbn [vx vy vz].
  intros Hn Hv. nsatz.
Qed.

Lemma lights_power_nonneg (i : nat) :
  0 <= ww (lights i) /\ nonneg3 (lCols i).
Proof.
  destruct i as [| [| i]]; unfold nonneg3; simpl; repeat split; lra.
Qed.

Lemma fresnel_unit (cosTheta : R) (F0 : vec3f) :
  unit3 F0 -> unit3 (fresnelSchlick cosTheta F0).
Proof.
  intros [Hx [Hy Hz]].
  destruct (proj1 (fresnelSchlick_range cosTheta F0)) as [Hlo Hhi];
    try lra.
  unfold le3, unit3, splat in *. cbn [vx vy vz] in *. lra.
Qed.

Lemma light_term_nonneg (u : Uniforms) (i : nat) (p n v baseCol : vec3f)
    (metal roughness : R) (F0 : vec3f) :
  unit3 baseCol -> 0 <= metal <= 1 -> unit3 F0 ->
  0 < attenuation_divisor i p ->
  nonneg3 (light_term u i p n v baseCol metal roughness F0).
Proof.
  intros [Bx [By Bz]] Hm HF0 Hatt. unfold light_term. cbv zeta.
  destruct (lights_power_nonneg i) as [Hpow [Cx [Cy Cz]]].
  set (L := normalize (xyz (lights i) -v p)).
  set (H := normalize (v +v L)).
  pose proof (fresnel_unit (Rmax (dot H v) 0) F0 HF0) as [Fx [Fy Fz]].
  set (F := fresnelSchlick (Rmax (dot H v) 0) F0) in *.
  pose proof (distributionGGX_nonneg n H roughness) as HN.
  set (NDF := distributionGGX n H roughness) in *.
  assert (HG : 0 <= geometrySmith n v L roughness).
  { unfold geometrySmith. cbv zeta.
    apply Rmult_le_pos; apply geometrySchlickGGX_nonneg; apply Rmax_r. }
  set (G := geometrySmith n v L roughness) in *.
  assert (Hden : 0.0001 <= specular_divisor n v L).
  { unfold specular_divisor.
    assert (0 <= Rmax (dot n v) 0) by apply Rmax_r.
    assert (0 <= Rmax (dot n L) 0) by apply Rmax_r.
    assert (0 <= 4 * Rmax (dot n v) 0 * Rmax (dot n L) 0)
      by (repeat apply Rmult_le_pos; lra).
    lra. }
  set (den := specular_divisor n v L) in *.
  assert (Hnl : 0 <= Rmax (dot n L) 0) by apply Rmax_r.
  set (NdotL := Rmax (dot n L) 0) in *.
  assert (Hsh : 0 <= (if Nat.eqb i 0
                      then getShadow u (p +v n *s 0.01) L 0.05
                             (length (xyz (lights i) -v p)) 16
                      else 1)).
  { destruct (Nat.eqb i 0); [apply getShadow_range | lra]. }
  set (shadow := if Nat.eqb i 0 then _ else 1) in *.
  assert (Ha : 0 <= 1 / attenuation_divisor i p).
  { unfold Rdiv. rewrite Rmult_1_l. left. apply Rinv_0_lt_compat. exact Hatt. }
  set (att := 1 / attenuation_divisor i p) in *.
  assert (Hpi : 0 < / PI) by (apply Rinv_0_lt_compat; unfold PI; lra).
  assert (Hdi : 0 < / den) by (apply Rinv_0_lt_compat; lra).
  assert (HNG : 0 <= NDF * G) by (apply Rmult_le_pos; assumption).
  clearbody shadow att NdotL den G NDF F.
  set (lp := ww (lights i)) in *. clearbody lp.
  destruct (lCols i) as [c1 c2 c3]. cbn [vx vy vz] in Cx, Cy, Cz.
  destruct F as [f1 f2 f3]. destruct baseCol as [b1 b2 b3].
  cbn [vx vy vz] in *.
  unfold nonneg3, vadd, vsub, vmul, vscale, vdivs, splat, zip3, map3, Rdiv.
  cbn [vx vy vz].
  assert (Hch : forall f b c : R, 0 <= f <= 1 -> 0 <= b <= 1 -> 0 <= c ->
            0 <= ((1 - f) * (1 - metal) * b * / PI + f * (NDF * G) * / den)
                 * (c * lp * att) * NdotL * shadow).
  { intros f b c Hf Hb Hc.
    repeat apply Rmult_le_pos; try lra; try assumption.
    apply Rplus_le_le_0_compat; repeat apply Rmult_le_pos; lra. }
  repeat split; apply Hch; assumption.
Qed.

(** For unit vectors [n] and [v], an albedo in [0,1], a metallic value
    in [0,1], a roughness of at most 1, a non-negative occlusion and a
    point that is not at a light, [renderPBR] is non-negative in every
    channel. *)
Theorem renderPBR_nonneg (u : Uniforms) (p n v baseCol : vec3f)
    (metal roughness ao : R) :
  dot n n = 1 -> dot v v = 1 ->
  unit3 baseCol -> 0 <= metal <= 1 -> roughness <= 1 -> 0 <= ao ->
  (forall i : nat, 0 < attenuation_divisor i p) ->
  nonneg3 (renderPBR u p n v baseCol metal roughness ao).
Proof.
  intros Hn Hv HB Hm Hr Hao Hp. unfold renderPBR. cbv zeta.
  set (F0 := vmix (splat 0.04) baseCol metal).
  assert (HF0 : unit3 F0).
  { destruct HB as [Bx [By Bz]].
    unfold F0, unit3, vmix, splat, zip3, mix. cbn [vx vy vz].
    repeat split; nra. }
  assert (HLo : nonneg3 (renderPBR_loop u 3 0 p n v baseCol metal roughness
                           F0 (splat 0))).
  { simpl renderPBR_loop.
    repeat apply vadd_nonneg;
      try (apply light_term_nonneg; try assumption; apply Hp).
    unfold nonneg3, splat. cbn [vx vy vz]. lra. }
  apply vadd_nonneg; [exact HLo |].
  pose proof (fresnel_unit (Rmax (dot n v) 0) F0 HF0) as [Fx [Fy Fz]].
  set (kS := fresnelSchlick (Rmax (dot n v) 0) F0) in *.
  pose proof (getSky_floor n (proj1 (unit_component_range n Hn)))
    as [Sx [Sy Sz]].
  pose proof (getSky_floor (reflect (vneg v) n)
                (proj1 (unit_component_range _ (reflect_unit v n Hn Hv))))
    as [Rx [Ry Rz]].
  set (skyn := getSky n) in *. set (skyr := getSky (reflect (vneg v) n)) in *.
  clearbody kS skyn skyr.
  destruct HB as [Bx [By Bz]].
  destruct kS as [k1 k2 k3]. destruct skyn as [s1 s2 s3].
  destruct skyr as [r1 r2 r3]. destruct baseCol as [b1 b2 b3].
  cbn [vx vy vz] in *.
  unfold nonneg3, vadd, vsub, vmul, vscale, splat, zip3, map3.
  cbn [vx vy vz].
  assert (Hch : forall k s r b : R,
            0 <= k <= 1 -> 0 <= s -> 0 <= r -> 0 <= b <= 1 ->
            0 <= ((1 - k) * (1 - metal) * (s * 0.15 * b)
                  + r * (1 - roughness) * k) * ao).
  { intros k s r b Hk Hs Hr' Hb.
    apply Rmult_le_pos; [| exact Hao].
    assert (A1 : 0 <= (1 - k) * (1 - metal)) by (apply Rmult_le_pos; lra).
    assert (A2 : 0 <= s * 0.15 * b) by (apply Rmult_le_pos; lra).
    assert (A3 : 0 <= r * (1 - roughness))
      by (apply Rmult_le_pos; lra).
    assert (A4 : 0 <= r * (1 - roughness) * k)
      by (apply Rmult_le_pos; lra).
    apply Rplus_le_le_0_compat; [apply Rmult_le_pos |]; assumption. }
  repeat split; apply Hch; lra.
Qed.

Lemma renderPBR_nonneg_witness :
  nonneg3 (renderPBR default_uniforms (vec3 0 0 0) (vec3 0 1 0) (vec3 0 0 1)
             (vec3 0.8 0.8 0.85) 1 0.35 1).
Proof.
  apply renderPBR_nonneg;
    try (unfold dot; simpl; lra); try lra.
  - unfold unit3. simpl. lra.
  - intro i. apply attenuation_divisor_pos.
    destruct i as [| [| i]]; intro H; apply (f_equal vy) in H;
      simpl in H; lra.
Defined.

(** ** What the fragment stage reads *)

Section SameRead.

Variables u u' : Uniforms.
Hypothesis Hsame : same_read u u'.

(** Replace every field of [u] that the shader reads by that of [u']. *)
Ltac fields :=
  let H := fresh in
  pose proof Hsame as H;
  destruct H as (R1 & R2 & R3 & R4 & R5 & R6 & R7 & R8 & R9 & R10 & R11
                 & R12 & R13 & R14);
  rewrite ?R1, ?R2, ?R3, ?R4, ?R5, ?R6, ?R7, ?R8, ?R9, ?R10, ?R11, ?R12,
          ?R13, ?R14.

Lemma fold_step_same (warp : R) (st : FoldState) :
  fold_step u warp st = fold_step u' warp st.
Proof. unfold fold_step. fields. reflexivity. Qed.

Lemma fold_loop_same (warp : R) (n : nat) :
  forall st, fold_loop u n warp st = fold_loop u' n warp st.
Proof.
  induction n as [| n IH]; intro st; simpl; [reflexivity |].
  rewrite fold_step_same. apply IH.
Qed.

Lemma sdFractal_same (p : vec3f) : sdFractal u p = sdFractal u' p.
Proof.
  unfold sdFractal. cbv zeta. fields. rewrite fold_loop_same. reflexivity.
Qed.

Lemma map_same (p : vec3f) : map u p = map u' p.
Proof. unfold map. rewrite sdFractal_same. reflexivity. Qed.

Lemma calcNormal_same (p : vec3f) : calcNormal u p = calcNormal u' p.
Proof. unfold calcNormal. cbv zeta. rewrite !map_same. reflexivity. Qed.

Lemma getAO_loop_same (p nrm : vec3f) (n : nat) :
  forall i occ sca,
    getAO_loop u n i p nrm occ sca = getAO_loop u' n i p nrm occ sca.
Proof.
  induction n as [| n IH]; intros i occ sca; simpl; [reflexivity |].
  rewrite map_same. apply IH.
Qed.

Lemma getAO_same (p n : vec3f) : getAO u p n = getAO u' p n.
Proof. unfold getAO. rewrite getAO_loop_same. reflexivity. Qed.

Lemma getShadow_loop_same (ro rd : vec3f) (tmax k : R) (n : nat) :
  forall res t,
    getShadow_loop u n ro rd tmax k res t
    = getShadow_loop u' n ro rd tmax k res t.
Proof.
  induction n as [| n IH]; intros res t; simpl; [reflexivity |].
  rewrite map_same. rewrite IH. reflexivity.
Qed.

Lemma getShadow_same (ro rd : vec3f) (tmin tmax k : R) :
  getShadow u ro rd tmin tmax k = getShadow u' ro rd tmin tmax k.
Proof. unfold getShadow. rewrite getShadow_loop_same. reflexivity. Qed.

Lemma light_term_same (i : nat) (p n v baseCol : vec3f)
    (metal roughness : R) (F0 : vec3f) :
  light_term u i p n v baseCol metal roughness F0
  = light_term u' i p n v baseCol metal roughness F0.
Proof. unfold light_term. rewrite getShadow_same. reflexivity. Qed.

Lemma renderPBR_loop_same (p n v baseCol : vec3f) (metal roughness : R)
    (F0 : vec3f) (k : nat) :
  forall i Lo,
    renderPBR_loop u k i p n v baseCol metal roughness F0 Lo
    = renderPBR_loop u' k i p n v baseCol metal roughness F0 Lo.
Proof.
  induction k as [| k IH]; intros i Lo; simpl; [reflexivity |].
  rewrite light_term_same. apply IH.
Qed.

Lemma renderPBR_same (p n v baseCol : vec3f) (metal roughness ao : R) :
  renderPBR u p n v baseCol metal roughness ao
  = renderPBR u' p n v baseCol metal roughness ao.
Proof. unfold renderPBR. rewrite renderPBR_loop_same. reflexivity. Qed.

Lemma raymarch_loop_same (ro rd : vec3f) (n : nat) :
  forall st, raymarch_loop u n ro rd st = raymarch_loop u' n ro rd st.
Proof.
  induction n as [| n IH]; intro st; [reflexivity |].
  rewrite !raymarch_loop_S. rewrite map_same. cbv zeta.
  rewrite IH. reflexivity.
Qed.

Lemma raymarch_same (ro rd : vec3f) : raymarch u ro rd = raymarch u' ro rd.
Proof. unfold raymarch. rewrite raymarch_loop_same. reflexivity. Qed.

Lemma glow_term_same (pos : vec3f) (geoD tParams : R) :
  glow_term u pos geoD tParams = glow_term u' pos geoD tParams.
Proof. unfold glow_term. fields. reflexivity. Qed.

Lemma getGlow_loop_same (ro rd : vec3f) (tParams tEnd : R) (n : nat) :
  forall acc t,
    getGlow_loop u n ro rd tParams tEnd acc t
    = getGlow_loop u' n ro rd tParams tEnd acc t.
Proof.
  induction n as [| n IH]; intros acc t; simpl; [reflexivity |].
  rewrite sdFractal_same, glow_term_same, IH. reflexivity.
Qed.

Lemma getGlow_same (ro rd : vec3f) (maxT : R) :
  getGlow u ro rd maxT = getGlow u' ro rd maxT.
Proof.
  unfold getGlow. cbv zeta. rewrite getGlow_loop_same. fields. reflexivity.
Qed.

Lemma floor_surface_same (pos nor : vec3f) :
  floor_surface u pos nor = floor_surface u' pos nor.
Proof. unfold floor_surface. fields. reflexivity. Qed.

Lemma fractal_surface_same (pos nor : vec3f) (ao micro : R) :
  fractal_surface u pos nor ao micro = fractal_surface u' pos nor ao micro.
Proof. unfold fractal_surface. fields. reflexivity. Qed.

Lemma shade_hit_same (ro rd : vec3f) (t m : R) :
  shade_hit u ro rd t m = shade_hit u' ro rd t m.
Proof.
  unfold shade_hit. cbv zeta.
  do 2 rewrite ?calcNormal_same, ?getAO_same, ?floor_surface_same,
               ?fractal_surface_same, ?renderPBR_same, ?raymarch_same.
  fields. reflexivity.
Qed.

Lemma sample_ray_same (aaSamples i : nat) (uv : vec2f) (uu vv ww : vec3f) :
  sample_ray u aaSamples i uv uu vv ww
  = sample_ray u' aaSamples i uv uu vv ww.
Proof. unfold sample_ray. fields. reflexivity. Qed.

Lemma sample_color_same (aaSamples i : nat) (uv : vec2f)
    (ro uu vv ww : vec3f) :
  sample_color u aaSamples i uv ro uu vv ww
  = sample_color u' aaSamples i uv ro uu vv ww.
Proof.
  unfold sample_color, shade_sample, add_glow. cbv zeta.
  do 2 rewrite ?sample_ray_same, ?raymarch_same, ?shade_hit_same,
               ?getGlow_same.
  fields. reflexivity.
Qed.

Lemma aa_loop_same (aaSamples : nat) (uv : vec2f) (ro uu vv ww : vec3f)
    (n : nat) :
  forall i finalColor,
    aa_loop u n i aaSamples uv ro uu vv ww finalColor
    = aa_loop u' n i aaSamples uv ro uu vv ww finalColor.
Proof.
  induction n as [| n IH]; intros i finalColor; simpl; [reflexivity |].
  rewrite sample_color_same. apply IH.
Qed.

Lemma fs_main_same (uv : vec2f) : fs_main u uv = fs_main u' uv.
Proof.
  unfold fs_main, vignette_factor. cbv zeta.
  rewrite ?aa_loop_same. fields. reflexivity.
Qed.

End SameRead.

(** The colour of a pixel depends on the parameter block only through
    the fields that [same_read] lists: the mouse state, [dt], the light
    azimuth and elevation, the aberration strength and three of the four
    audio bands never reach it. *)
Theorem fs_main_reads (u u' : Uniforms) (uv : vec2f) :
  same_read u u' -> fs_main u uv = fs_main u' uv.
Proof. intro H. apply fs_main_same. exact H. Qed.

Lemma fs_main_reads_witness :
  fs_main default_uniforms (vec2 0.5 0.5)
  = fs_main touched_uniforms (vec2 0.5 0.5).
Proof.
  apply fs_main_reads. unfold same_read. simpl. repeat split.
Defined.

(** ** Post-processing *)





(** ** The primary ray *)

(** Without anti-aliasing the ray through the centre of the frame is
    the forward axis of the camera. *)
Theorem centre_ray (u : Uniforms) (i : nat) (uu vv ww : vec3f) :
  y2 (resolution u) <> 0 -> dot ww ww = 1 ->
  sample_ray u 1 i (vec2 0.5 0.5) uu vv ww = ww.
Proof.
  intros Hres Hw. unfold sample_ray. cbv zeta.
  replace (if (1 <? 1)%nat then _ else vec2 0 0) with (vec2 0 0)
    by reflexivity.
  cbn [x2 y2].
  replace (- x2 (resolution u) + 2 * (0.5 + 0) * x2 (resolution u))
    with 0 by lra.
  replace (- y2 (resolution u) + 2 * (0.5 + 0) * y2 (resolution u))
    with 0 by lra.
  unfold Rdiv at 1 2. rewrite !Rmult_0_l.
  assert (E : uu *s 0 +v vv *s 0 +v ww *s 2 = ww *s 2).
  { destruct uu, vv, ww. unfold vadd, vscale, zip3, map3. cbn [vx vy vz].
    f_equal; ring. }
  rewrite E. unfold normalize.
  assert (Hl : length (ww *s 2) = 2).
  { unfold length.
    replace (dot (ww *s 2) (ww *s 2)) with (2 * 2 * dot ww ww)
      by (destruct ww; unfold dot, vscale, map3; cbn [vx vy vz]; ring).
    rewrite Hw, Rmult_1_r. apply sqrt_square. lra. }
  rewrite Hl. destruct ww as [a b c].
  unfold vdivs, vscale, map3. cbn [vx vy vz]. f_equal; field.
Qed.

Lemma centre_ray_witness :
  sample_ray default_uniforms 1 0 (vec2 0.5 0.5)
    (vec3 1 0 0) (vec3 0 1 0) (vec3 0 0 (- 1)) = vec3 0 0 (- 1).
Proof.
  apply centre_ray; [simpl; lra | unfold dot; simpl; lra].
Defined.

(** ** The orbit camera of the host *)

Lemma pi_gt_2 : 2 < Rtrigo1.PI.
Proof. pose proof PI2_1. lra. Qed.

Lemma dispatch_keeps_range (h : HostState) (e : HostEvent) :
  0.1 <= phi (cameraState h) <= Rtrigo1.PI - 0.1 ->
  2 <= radius (cameraState h) <= 20 ->
  0.1 <= phi (cameraState (dispatch h e)) <= Rtrigo1.PI - 0.1
  /\ 2 <= radius (cameraState (dispatch h e)) <= 20.
Proof.
  intros Hp Hr. pose proof pi_gt_2 as Hpi.
  destruct e as [x y | x y | | | d]; unfold dispatch, handleMouseDown,
    handleMouseMove, handleMouseUp, handleWheel; cbv zeta.
  - simpl. split; assumption.
  - destruct (isDragging (cameraState h)); simpl; [| split; assumption].
    split; [| assumption].
    set (a := phi (cameraState h) + (y - lastY (cameraState h)) * 0.005).
    clearbody a. unfold Rmax, Rmin.
    repeat destruct (Rle_dec _ _); lra.
  - simpl. split; assumption.
  - simpl. split; assumption.
  - simpl. split; [assumption |].
    set (a := radius (cameraState h) + d * 0.005). clearbody a.
    unfold Rmax, Rmin. repeat destruct (Rle_dec _ _); lra.
Qed.

(** Whatever the user does with the mouse and the wheel, the elevation
    of the camera stays in [0.1, pi - 0.1] and its radius in [2, 20]. *)
Theorem camera_stays_in_range (es : list HostEvent) :
  let c := cameraState (run_events es initial_host) in
  0.1 <= phi c <= Rtrigo1.PI - 0.1 /\ 2 <= radius c <= 20.
Proof.
  cbv zeta. unfold run_events.
  assert (Hgen : forall h : HostState,
            0.1 <= phi (cameraState h) <= Rtrigo1.PI - 0.1 ->
            2 <= radius (cameraState h) <= 20 ->
            0.1 <= phi (cameraState (List.fold_left dispatch es h))
                <= Rtrigo1.PI - 0.1
            /\ 2 <= radius (cameraState (List.fold_left dispatch es h))
                 <= 20).
  { induction es as [| e es IH]; intros h Hp Hr; simpl.
    - split; assumption.
    - destruct (dispatch_keeps_range h e Hp Hr) as [Hp' Hr'].
      apply IH; assumption. }
  pose proof pi_gt_2.
  apply Hgen; simpl; lra.
Qed.

(** The camera is at distance [radius] from the origin, on the sphere
    that the angles parametrize. *)
Theorem orbit_position_on_sphere (t p r : R) :
  0 <= r -> length (orbit_position t p r) = r.
Proof.
  intro Hr. unfold length.
  replace (dot (orbit_position t p r) (orbit_position t p r)) with (r * r).
  - apply sqrt_square. exact Hr.
  - unfold orbit_position, dot. cbn [vx vy vz].
    pose proof (sin2_cos2 t) as Ht. pose proof (sin2_cos2 p) as Hp.
    unfold Rsqr in *.
    set (st := sin t) in *. set (ct := cos t) in *.
    set (sp := sin p) in *. set (cp := cos p) in *.
    clearbody st ct sp cp. nsatz.
Qed.

Lemma orbit_position_on_sphere_witness :
  length (orbit_position 0.5 0.3 4.5) = 4.5.
Proof. apply orbit_position_on_sphere. lra. Defined.

Lemma sin_half_upper : sin 0.5 <= 0.48.
Proof.
  assert (H : 0.5 <= Rtrigo1.PI) by (pose proof pi_gt_2; lra).
  destruct (SIN 0.5 ltac:(lra) H) as [_ Hub].
  eapply Rle_trans; [exact Hub |].
  unfold sin_ub, sin_approx, sum_f_R0, sin_term.
  repeat match goal with
  | |- context [INR (Factorial.fact ?n)] =>
      let v := eval vm_compute in (Z.of_nat (Factorial.fact n)) in
      replace (INR (Factorial.fact n)) with (IZR v)
        by (rewrite INR_IZR_INZ; f_equal)
  end.
  simpl pow. lra.
Qed.

Lemma sin_small_range (x : R) : - 0.5 <= x <= 0.5 -> - 0.48 <= sin x.
Proof.
  intro Hx. pose proof pi_gt_2 as Hpi. pose proof sin_half_upper as Hs.
  assert (Hm : sin (- 0.5) <= sin x).
  { apply sin_incr_1; lra. }
  replace (- 0.5) with (- (0.5)) in Hm by lra.
  rewrite sin_neg in Hm. lra.
Qed.


(** ** Ambient occlusion in the open *)

Lemma getAO_loop_free (u : Uniforms) (p nrm : vec3f) :
  (forall i : nat, (i < 5)%nat ->
     ao_height i <= x2 (map u (p +v nrm *s ao_height i))) ->
  forall (n i : nat) (occ sca : R),
    (i + n <= 5)%nat -> 0 <= sca ->
    getAO_loop u n i p nrm occ sca <= occ.
Proof.
  intro Hfree. induction n as [| n IH]; intros i occ sca Hi Hsca; simpl.
  - lra.
  - pose proof (Hfree i ltac:(lia)) as Hd. unfold ao_height in Hd.
    eapply Rle_trans; [apply IH; [lia | lra] |].
    set (h := 0.01 + 0.12 * INR i / 4) in *.
    assert (0 <= (x2 (map u (p +v nrm *s h)) - h) * sca)
      by (apply Rmult_le_pos; lra).
    lra.
Qed.

(** Where none of the five probes is nearer to a surface than its own
    height, nothing occludes and [getAO] is [0.5 + 0.5 * n.y]: 1 on a
    surface that faces up, 0.5 on a vertical one, 0 on one that faces
    down. *)
Theorem getAO_unoccluded (u : Uniforms) (p n : vec3f) :
  (forall i : nat, (i < 5)%nat ->
     ao_height i <= x2 (map u (p +v n *s ao_height i))) ->
  getAO u p n = 0.5 + 0.5 * vy n.
Proof.
  intro Hfree. unfold getAO. cbv zeta.
  pose proof (getAO_loop_free u p n Hfree 5 0 0 1 ltac:(lia) ltac:(lra))
    as Hocc.
  set (occ := getAO_loop u 5 0 p n 0 1) in *. clearbody occ.
  replace (clamp (1 - 3 * occ) 0 1) with 1 by rcases.
  ring.
Qed.

Lemma getAO_unoccluded_witness :
  getAO default_uniforms (vec3 0 0 20) (vec3 0 1 0) = 0.5 + 0.5 * 1.
Proof.
  apply (getAO_unoccluded default_uniforms (vec3 0 0 20) (vec3 0 1 0)).
  intros i Hi.
  assert (Hh : 0 <= ao_height i <= 0.16).
  { unfold ao_height. pose proof (pos_INR i) as H0.
    assert (H5 : (i <= 5)%nat) by lia. apply le_INR in H5.
    replace (INR 5) with 5 in H5 by (simpl; lra). lra. }
  pose proof (map_above default_uniforms (ao_height i) eq_refl eq_refl
                (proj1 Hh)) as Hm.
  lra.
Defined.

(** ** Material parameters *)

Lemma exp_nonpos_le_1 (x : R) : x <= 0 -> 0 < exp x <= 1.
Proof.
  intro Hx. split; [apply exp_pos |].
  destruct (Req_dec x 0) as [E | E].
  - rewrite E, exp_0. lra.
  - rewrite <- exp_0. left. apply exp_increasing. lra.
Qed.

(** The floor material is a dielectric whose roughness lies in
    [0.3, 1], at every point and for all parameters. *)
Theorem floor_surface_material (u : Uniforms) (pos nor : vec3f) :
  0.3 <= s_roughness (floor_surface u pos nor) <= 1
  /\ s_metallic (floor_surface u pos nor) = 0.
Proof.
  unfold floor_surface. cbv zeta. cbn [s_roughness s_metallic].
  split; [| reflexivity].
  pose proof (fbm_range (pos *s 2)) as Hf.
  set (f := fbm (pos *s 2)) in *. clearbody f.
  assert (Hl : 0 <= length2 (vec2 (vx pos) (vz pos)))
    by (unfold length2; apply sqrt_pos).
  pose proof (exp_nonpos_le_1 (- length2 (vec2 (vx pos) (vz pos)) * 0.1)
                ltac:(lra)) as He.
  set (falloff := exp _) in *. clearbody falloff.
  unfold mix. nra.
Qed.

(** The fractal material: with the detail slider in [0, 0.9] and the
    metallic slider in [0, 1] its roughness lies in [0, 1) and its
    metallic value in [0, 1]. *)
Theorem fractal_surface_material (u : Uniforms) (pos nor : vec3f)
    (ao micro : R) :
  0 <= detail u <= 0.9 -> 0 <= metallic u <= 1 ->
  0 <= s_roughness (fractal_surface u pos nor ao micro) < 1
  /\ 0 <= s_metallic (fractal_surface u pos nor ao micro) <= 1.
Proof.
  intros Hd Hm. unfold fractal_surface. cbv zeta.
  cbn [s_roughness s_metallic].
  pose proof (clamp_range (1 - ao) 0 1 Rle_0_1) as Hc.
  set (curv := clamp (1 - ao) 0 1) in *. clearbody curv.
  match goal with
  | |- context [noise ?x] =>
      pose proof (noise_range x) as Hn;
      set (scratches := noise x) in *; clearbody scratches
  end.
  unfold mix. split; nra.
Qed.

Lemma fractal_surface_material_witness :
  0 <= s_roughness (fractal_surface default_uniforms (vec3 0 0 1)
                      (vec3 0 0 1) 1 0.5) < 1.
Proof.
  apply (fractal_surface_material default_uniforms (vec3 0 0 1)
           (vec3 0 0 1) 1 0.5); simpl; lra.
Defined.
